(** * prettyslog: a shallow embedding of the slog handler and its rendering

    The Go package [prettyslog] implements [slog.Handler].  This file
    embeds the handler (part_000 of the repository) in Rocq:

    - strings are [string]; a [strings.Builder] is the string written so far;
    - [slog.Level] is an [int], modelled as [Z] (only compared, never added);
    - [map[slog.Level]string] is a [gmap Z string]; a missing key reads [""];
    - handlers live in a store and are addressed by pointers (indices), the
      slices [groups] and [attrs] are a base pointer into a store of backing
      arrays together with a length and a capacity, and [append] writes in
      place when the capacity allows it, as Go does;
    - the sink is observed through the trace of [Write] calls;
    - a run-time panic (nil dereference, index out of range) is [None].

    What the Go standard library decides (time layout, call frames, the
    result of a write, the slack of a grown slice) is a [Runtime] record
    that every definition takes as a parameter. *)

From Stdlib Require Import ZArith NArith Ascii List Bool Lia.
From Stdlib Require String.
From Stdlib Require Import Numbers.DecimalString.
From stdpp Require Import base option list gmap strings.

Local Open Scope Z_scope.

(** ** Strings *)

Definition ESC : ascii := "027"%char.
Definition LF : ascii := "010"%char.
Definition semicolon : ascii := ";"%char.

Definition FgRed : string := String ESC "[31m".
Definition FgGreen : string := String ESC "[32m".
Definition FgYellow : string := String ESC "[33m".
Definition FgBlue : string := String ESC "[34m".
Definition FgMagenta : string := String ESC "[35m".
Definition FgCyan : string := String ESC "[36m".
Definition FgWhite : string := String ESC "[37m".
Definition FgGray : string := String ESC "[90m".
Definition ColorReset : string := String ESC "[0m".

(** [strings.Builder]: the text written so far. *)
Definition Builder := string.
Definition WriteString (b : Builder) (s : string) : Builder := b +:+ s.

(** Number of occurrences of the character [c] in [s]. *)
Fixpoint count_char (c : ascii) (s : string) : nat :=
  match s with
  | EmptyString => O
  | String d s' => ((if Ascii.eqb c d then 1 else 0) + count_char c s')%nat
  end.

(** Number of positions of [s] at which [p] occurs as a substring. *)
Fixpoint count_sub (p s : string) : nat :=
  match s with
  | EmptyString => O
  | String _ s' => ((if String.prefix p s then 1 else 0) + count_sub p s')%nat
  end.

(** Index of the first occurrence of [c] in [s]. *)
Fixpoint first_index (c : ascii) (s : string) : option nat :=
  match s with
  | EmptyString => None
  | String d s' => if Ascii.eqb c d then Some O else S <$> first_index c s'
  end.

(** [fmt]'s [%d] for an [int]. *)
Definition itoa (z : Z) : string := NilZero.string_of_int (Z.to_int z).

(** ** slog's data *)

Definition Level := Z.
Definition LevelDebug : Level := -4.
Definition LevelInfo : Level := 0.
Definition LevelWarn : Level := 4.
Definition LevelError : Level := 8.

(** [slog.Attr] and [slog.Value].  [Kind() == KindGroup] holds of
    [GroupValue] only; for the other kinds the handler prints
    [fmt.Sprintf("%v", v.Any())], and [AnyValue] carries that text for the
    kinds whose printing is not modelled (floats, times, durations, ...). *)
Inductive Attr :=
| mkAttr (Key : string) (Value_ : Value)
with Value :=
| StringValue (s : string)
| Int64Value (i : Z)
| BoolValue (b : bool)
| AnyValue (shown : string)
| GroupValue (g : list Attr).

Definition Key (a : Attr) : string := let 'mkAttr k _ := a in k.
Definition Value_ (a : Attr) : Value := let 'mkAttr _ v := a in v.

(** [fmt.Sprintf("%v", v.Any())] for a value that is not a group. *)
Definition Sprint_v (v : Value) : string :=
  match v with
  | StringValue s => s
  | Int64Value i => itoa i
  | BoolValue b => if b then "true" else "false"
  | AnyValue shown => shown
  | GroupValue _ => ""
  end.

(** ** The Go run time and standard library *)

Record Runtime := {
  Time : Type;
  Time_IsZero : Time -> bool;
  Time_Format : Time -> string -> string;
  (** [runtime.CallersFrames([]uintptr{pc}).Next()]: file and line *)
  CallersFrame : N -> string * Z;
  error : Type;
  (** the error, if any, of [w.Write(data)] on writer [w], given the calls
      made so far *)
  Write_err : nat -> list (nat * string) -> string -> option error;
  (** spare capacity of a freshly grown backing array of the given length *)
  growslice : nat -> nat
}.

(** ** Slices over a store of backing arrays *)

Record slice := { base : option nat; len : nat; cap : nat }.

(** [nil], and the literal [[]T{}]: no backing array. *)
Definition nil_slice : slice := {| base := None; len := O; cap := O |}.

Section Slices.
Context {A : Type}.
Variable rt : Runtime.

Definition array_of (hp : list (list A)) (s : slice) : list A :=
  match base s with
  | Some b => default [] (hp !! b)
  | None => []
  end.

(** the elements [s...] of a slice *)
Definition elems (hp : list (list A)) (s : slice) : list A :=
  take (len s) (array_of hp s).

(** [s[i]], with Go's bounds check *)
Definition index (hp : list (list A)) (s : slice) (i : Z) : option A :=
  if (0 <=? i) && (i <? Z.of_nat (len s)) then array_of hp s !! Z.to_nat i
  else None.

(** [append(s, xs...)] *)
Definition append (hp : list (list A)) (s : slice) (xs : list A)
  : list (list A) * slice :=
  match xs with
  | [] => (hp, s)
  | _ =>
    let n := (len s + length xs)%nat in
    if (n <=? cap s)%nat then
      match base s with
      | Some b =>
        let arr := array_of hp s in
        (<[b := take (len s) arr ++ xs ++ drop n arr]> hp,
         {| base := Some b; len := n; cap := cap s |})
      | None => (hp, s)
      end
    else
      (hp ++ [elems hp s ++ xs],
       {| base := Some (length hp); len := n; cap := (n + growslice rt n)%nat |})
  end.

Definition slice_ok (hp : list (list A)) (s : slice) : bool :=
  match base s with
  | None => (len s =? 0)%nat
  | Some b =>
    match hp !! b with
    | Some arr => (len s <=? length arr)%nat
    | None => false
    end
  end.
End Slices.

(** ** The handler *)

Record options := {
  includeTimestamp : bool;
  includeSource : bool;
  colors : bool;
  levelColors : gmap Z string;
  timestampFormat : string;
  level : Level;
  writer : nat
}.

(** [os.Stderr] *)
Definition os_Stderr : nat := 2%nat.

Record PrettyslogHandler := {
  h_mu : nat;
  h_writer : nat;
  h_groups : slice;
  h_opts : options;
  h_attrs : slice
}.

Definition defaultOptions : options := {|
  includeTimestamp := true;
  includeSource := false;
  colors := true;
  timestampFormat := "[15:04:05.000]";
  levelColors :=
    <[LevelDebug := FgMagenta]> (<[LevelInfo := FgBlue]>
      (<[LevelWarn := FgYellow]> (<[LevelError := FgRed]> ∅)));
  level := LevelInfo;
  writer := os_Stderr
|}.

(** The functional options; [options] is unexported, so these six
    constructors are all a caller can build. *)
Inductive Option :=
| WithTimestamp (enabled : bool)
| WithSource (enabled : bool)
| WithColors (enabled : bool)
| WithLevel (l : Level)
| WithTimestampFormat (format : string)
| WithWriter (w : nat).

Definition apply_Option (opt : Option) (o : options) : options :=
  match opt with
  | WithTimestamp enabled =>
    {| includeTimestamp := enabled; includeSource := includeSource o;
       colors := colors o; levelColors := levelColors o;
       timestampFormat := timestampFormat o; level := level o; writer := writer o |}
  | WithSource enabled =>
    {| includeTimestamp := includeTimestamp o; includeSource := enabled;
       colors := colors o; levelColors := levelColors o;
       timestampFormat := timestampFormat o; level := level o; writer := writer o |}
  | WithColors enabled =>
    {| includeTimestamp := includeTimestamp o; includeSource := includeSource o;
       colors := enabled; levelColors := levelColors o;
       timestampFormat := timestampFormat o; level := level o; writer := writer o |}
  | WithLevel l =>
    {| includeTimestamp := includeTimestamp o; includeSource := includeSource o;
       colors := colors o; levelColors := levelColors o;
       timestampFormat := timestampFormat o; level := l; writer := writer o |}
  | WithTimestampFormat format =>
    {| includeTimestamp := includeTimestamp o; includeSource := includeSource o;
       colors := colors o; levelColors := levelColors o;
       timestampFormat := format; level := level o; writer := writer o |}
  | WithWriter w =>
    {| includeTimestamp := includeTimestamp o; includeSource := includeSource o;
       colors := colors o; levelColors := levelColors o;
       timestampFormat := timestampFormat o; level := level o; writer := w |}
  end.

(** [map[slog.Level]string] lookup: the zero value for a missing key. *)
Definition levelColor_of (o : options) (l : Level) : string :=
  default "" (levelColors o !! l).

Definition colorize (text : string) (enable : bool) (colorCode : string) : string :=
  if negb enable || String.eqb colorCode "" then text
  else colorCode +:+ text +:+ ColorReset.

Definition formatLevel (o : options) (l : Level) : string :=
  let levelStr :=
    if l =? LevelDebug then "DBG"
    else if l =? LevelInfo then "INF"
    else if l =? LevelWarn then "WAR"
    else if l =? LevelError then "ERR"
    else "UNK" in
  let colorCode := levelColor_of o l in
  let colorCode := if String.eqb colorCode "" then FgWhite else colorCode in
  colorize levelStr (colors o) colorCode.

(** What is written before each attribute: the coloured [;] and a space. *)
Definition separator (o : options) : string :=
  colorize ";" (colors o) FgGray +:+ " ".

Fixpoint formatAttr (o : options) (b : Builder) (attr : Attr)
    (levelColor : string) (prefix : string) {struct attr} : Builder :=
  match attr with
  | mkAttr key (GroupValue groupAttrs) =>
    let groupName := key in
    let newPrefix :=
      if String.eqb prefix "" then groupName else prefix +:+ "." +:+ groupName in
    fold_left
      (fun b a =>
         let b := WriteString b (colorize ";" (colors o) FgGray) in
         let b := WriteString b " " in
         formatAttr o b a levelColor newPrefix)
      groupAttrs b
  | mkAttr key v =>
    let key := if String.eqb prefix "" then key else prefix +:+ "." +:+ key in
    let b := WriteString b (colorize key (colors o) levelColor) in
    let b := WriteString b (colorize "=" (colors o) FgGray) in
    WriteString b (colorize (Sprint_v v) (colors o) "")
  end.

Definition formatAttrs (o : options) (attrs : list Attr) (levelColor : string) : string :=
  fold_left
    (fun b attr =>
       let b := WriteString b (colorize ";" (colors o) FgGray) in
       let b := WriteString b " " in
       formatAttr o b attr levelColor "")
    attrs "".

(** ** Records, the store and the handler's methods *)

Record World := {
  strArrays : list (list string);
  attrArrays : list (list Attr);
  handlers : list PrettyslogHandler;
  mutexes : nat;
  trace : list (nat * string)
}.

Definition empty_World : World :=
  {| strArrays := []; attrArrays := []; handlers := []; mutexes := O; trace := [] |}.

Section Handler.
Variable rt : Runtime.

(** [slog.Record] *)
Record slog_Record := {
  r_Time : Time rt;
  r_Message : string;
  r_Level : Level;
  r_PC : N;
  r_attrs : list Attr
}.

Definition NewPrettyslogHandler (w : World) (group : string) (opts : list Option)
  : World * nat :=
  let options := fold_left (fun o opt => apply_Option opt o) opts defaultOptions in
  let handler := {|
    h_mu := mutexes w;
    h_writer := writer options;
    h_groups := {| base := Some (length (strArrays w)); len := 1; cap := 1 |};
    h_opts := options;
    h_attrs := nil_slice
  |} in
  ({| strArrays := strArrays w ++ [[group]];
      attrArrays := attrArrays w;
      handlers := handlers w ++ [handler];
      mutexes := S (mutexes w);
      trace := trace w |},
   length (handlers w)).

Definition Enabled (h : PrettyslogHandler) (l : Level) : bool :=
  l >=? level (h_opts h).

(** The slice built by [collectAttrs] is local to the call; only its
    elements are observed. *)
Definition collectAttrs (w : World) (h : PrettyslogHandler) (r : slog_Record)
  : list Attr :=
  let attrs := [] in
  let attrs := attrs ++ elems (attrArrays w) (h_attrs h) in
  fold_left (fun attrs a => attrs ++ [a]) (r_attrs r) attrs.

(** [Handle].  The mutex is free on entry and on exit of every call of a
    sequential run, so locking does not show in the result. *)
Definition Handle (w : World) (p : nat) (r : slog_Record)
  : option (World * option (error rt)) :=
  h ← handlers w !! p;
  if negb (Enabled h (r_Level r)) then Some (w, None)
  else
    let o := h_opts h in
    let b : Builder := "" in
    groupName ← index (strArrays w) (h_groups h) (Z.of_nat (len (h_groups h)) - 1);
    let b := WriteString b (colorize groupName (colors o) "") in
    let b := WriteString b " " in
    let levelStr := formatLevel o (r_Level r) in
    let b := WriteString b levelStr in
    let b := WriteString b " " in
    let b :=
      if includeTimestamp o && negb (Time_IsZero rt (r_Time r)) then
        let timestamp := Time_Format rt (r_Time r) (timestampFormat o) in
        let b := WriteString b (colorize timestamp (colors o) FgGray) in
        WriteString b " "
      else b in
    let b :=
      if includeSource o && negb (r_PC r =? 0)%N then
        let '(file, line) := CallersFrame rt (r_PC r) in
        let source := file +:+ ":" +:+ itoa line in
        let b := WriteString b (colorize source (colors o) FgGray) in
        WriteString b " "
      else b in
    let b := WriteString b (colorize (r_Message r) (colors o) "") in
    let attrs := collectAttrs w h r in
    let levelColor := levelColor_of o (r_Level r) in
    let levelColor := if String.eqb levelColor "" then FgWhite else levelColor in
    let b :=
      if (0 <? length attrs)%nat then WriteString b (formatAttrs o attrs levelColor)
      else b in
    let b := WriteString b (String LF "") in
    let err := Write_err rt (h_writer h) (trace w) b in
    Some ({| strArrays := strArrays w;
             attrArrays := attrArrays w;
             handlers := handlers w;
             mutexes := mutexes w;
             trace := trace w ++ [(h_writer h, b)] |},
          err).

Definition WithAttrs (w : World) (p : nat) (attrs : list Attr) : option (World * nat) :=
  match attrs with
  | [] => Some (w, p)
  | _ =>
    h ← handlers w !! p;
    let '(hp, s) := append rt (attrArrays w) nil_slice (elems (attrArrays w) (h_attrs h)) in
    let '(hp, s) := append rt hp s attrs in
    let h2 := {| h_mu := h_mu h; h_writer := h_writer h; h_groups := h_groups h;
                 h_opts := h_opts h; h_attrs := s |} in
    Some ({| strArrays := strArrays w;
             attrArrays := hp;
             handlers := handlers w ++ [h2];
             mutexes := mutexes w;
             trace := trace w |},
          length (handlers w))
  end.

Definition WithGroup (w : World) (p : nat) (name : string) : option (World * nat) :=
  if String.eqb name "" then Some (w, p)
  else
    h ← handlers w !! p;
    let '(hp, s) := append rt (strArrays w) nil_slice (elems (strArrays w) (h_groups h)) in
    let '(hp, s) := append rt hp s [name] in
    let h2 := {| h_mu := h_mu h; h_writer := h_writer h; h_groups := s;
                 h_opts := h_opts h; h_attrs := h_attrs h |} in
    Some ({| strArrays := hp;
             attrArrays := attrArrays w;
             handlers := handlers w ++ [h2];
             mutexes := mutexes w;
             trace := trace w |},
          length (handlers w)).

(** The stores a program can reach: the root handlers are built by
    [NewPrettyslogHandler], the others derived from them. *)
Inductive reachable : World -> Prop :=
| reach_empty : reachable empty_World
| reach_New w group opts :
    reachable w -> reachable (NewPrettyslogHandler w group opts).1
| reach_WithAttrs w p attrs w' p' :
    reachable w -> WithAttrs w p attrs = Some (w', p') -> reachable w'
| reach_WithGroup w p name w' p' :
    reachable w -> WithGroup w p name = Some (w', p') -> reachable w'
| reach_Handle w p r w' err :
    reachable w -> Handle w p r = Some (w', err) -> reachable w'.

(** The scope stack and the inherited attributes of a handler. *)
Definition groups_of (w : World) (h : PrettyslogHandler) : list string :=
  elems (strArrays w) (h_groups h).
Definition attrs_of (w : World) (h : PrettyslogHandler) : list Attr :=
  elems (attrArrays w) (h_attrs h).

(** Both slices point into the store, the scope stack is not empty, and
    the colour table is the default one (no option changes it). *)
Definition handler_ok (w : World) (h : PrettyslogHandler) : bool :=
  slice_ok (strArrays w) (h_groups h) && slice_ok (attrArrays w) (h_attrs h)
  && (1 <=? len (h_groups h))%nat
  && bool_decide (levelColors (h_opts h) = levelColors defaultOptions).

Definition World_ok (w : World) : bool := forallb (handler_ok w) (handlers w).
End Handler.

Arguments r_Time {rt} _.
Arguments r_Message {rt} _.
Arguments r_Level {rt} _.
Arguments r_PC {rt} _.
Arguments r_attrs {rt} _.

(** ** Counting attributes *)

(** Scalar (leaf) attributes of an attribute, nested groups flattened. *)
Fixpoint leaves (a : Attr) : nat :=
  match a with
  | mkAttr _ (GroupValue g) => sum_list_with leaves g
  | mkAttr _ _ => 1
  end.

(** All attribute nodes of an attribute: the leaves and the groups. *)
Fixpoint nodes (a : Attr) : nat :=
  match a with
  | mkAttr _ (GroupValue g) => S (sum_list_with nodes g)
  | mkAttr _ _ => 1
  end.

(** The character [c] occurs in no key and in no printed value of [a]. *)
Fixpoint Attr_free (c : ascii) (a : Attr) : bool :=
  match a with
  | mkAttr k (GroupValue g) => (count_char c k =? 0)%nat && forallb (Attr_free c) g
  | mkAttr k v => (count_char c k =? 0)%nat && (count_char c (Sprint_v v) =? 0)%nat
  end.

Definition isGroup (v : Value) : bool :=
  match v with GroupValue _ => true | _ => false end.

(** Concatenation of the texts [f a], in the order of the list. *)
Definition concat_map (f : Attr -> string) (l : list Attr) : string :=
  fold_right (fun a acc => f a +:+ acc) "" l.

(** The first [;] of [s], if any, is not before position [k]. *)
Definition lead_ok (k : nat) (s : string) : Prop :=
  match first_index semicolon s with
  | Some m => (k <= m)%nat
  | None => True
  end.

(** In front of any continuation, [out] adds [n] occurrences of [p]
    ([k] is the position of the [;] inside [p]). *)
Definition counted (p : string) (k : nat) (out : string) (n : nat) : Prop :=
  forall s, lead_ok k s ->
    count_sub p (out +:+ s) = (n + count_sub p s)%nat /\ lead_ok k (out +:+ s).

(** A pattern with a single [;]: [pre], the [;], then [post]. *)
Definition pattern (pre post : string) : string := pre +:+ String semicolon post.

(** One turn of either loop of the formatter: the separator is written,
    then the attribute. *)
Definition turn (o : options) (lc prefix : string) (b : Builder) (a : Attr) : Builder :=
  formatAttr o (WriteString (WriteString b (colorize ";" (colors o) FgGray)) " ")
    a lc prefix.

(** The key of an attribute below the dotted [prefix]. *)
Definition dotted (prefix key : string) : string :=
  if String.eqb prefix "" then key else prefix +:+ "." +:+ key.

(** The separator is [sep_pre o], the [;], then [sep_post o]. *)
Definition sep_pre (o : options) : string := if colors o then FgGray else "".
Definition sep_post (o : options) : string :=
  if colors o then ColorReset +:+ " " else " ".

(** [out] adds [n] separators in front of any continuation. *)
Definition seps (o : options) (out : string) (n : nat) : Prop :=
  counted (separator o) (String.length (sep_pre o)) out n.

(** The colour of the attribute keys of a record of level [l]. *)
Definition attrColor (o : options) (l : Level) : string :=
  if String.eqb (levelColor_of o l) "" then FgWhite else levelColor_of o l.

(** ** The line as a text

    The segments [Handle] writes, named one by one; [Handle_line] below
    proves that their concatenation is the line [Handle] hands to the sink. *)
Section Line.
Variable rt : Runtime.

Definition timestamp_part (o : options) (r : slog_Record rt) : string :=
  if includeTimestamp o && negb (Time_IsZero rt (r_Time r)) then
    colorize (Time_Format rt (r_Time r) (timestampFormat o)) (colors o) FgGray +:+ " "
  else "".

Definition source_text (r : slog_Record rt) : string :=
  (CallersFrame rt (r_PC r)).1 +:+ ":" +:+ itoa (CallersFrame rt (r_PC r)).2.

Definition source_part (o : options) (r : slog_Record rt) : string :=
  if includeSource o && negb (r_PC r =? 0)%N then
    colorize (source_text r) (colors o) FgGray +:+ " "
  else "".

(** Everything after the scope label and its space, up to the message. *)
Definition after_label (o : options) (r : slog_Record rt) : string :=
  formatLevel o (r_Level r) +:+ " " +:+ timestamp_part o r +:+ source_part o r
  +:+ colorize (r_Message r) (colors o) "".

(** The rendering of one top-level attribute, with its separator. *)
Definition one_attr (o : options) (r : slog_Record rt) (a : Attr) : string :=
  separator o +:+ formatAttr o "" a (attrColor o (r_Level r)) "".

(** The line after the scope label and its space: no scope stack here. *)
Definition line_tail (o : options) (inherited : list Attr) (r : slog_Record rt)
  : string :=
  after_label o r
  +:+ formatAttrs o (inherited ++ r_attrs r) (attrColor o (r_Level r))
  +:+ String LF "".

Definition line (o : options) (groupName : string) (inherited : list Attr)
    (r : slog_Record rt) : string :=
  colorize groupName (colors o) "" +:+ " " +:+ line_tail o inherited r.

(** What a call of [Handle] adds to the trace of writes. *)
Definition output (w : World) (p : nat) (r : slog_Record rt)
  : option (list (nat * string)) :=
  '(w', _) ← Handle rt w p r; Some (drop (length (trace w)) (trace w')).

(** The handlers of [w] are still there in [w'], with the same scope
    stack and the same inherited attributes. *)
Definition preserved (w w' : World) : Prop :=
  forall q hq, handlers w !! q = Some hq ->
    handlers w' !! q = Some hq
    /\ groups_of w' hq = groups_of w hq
    /\ attrs_of w' hq = attrs_of w hq.
End Line.

(** [w'] is [w] with one more handler [h'] and possibly more backing
    arrays; nothing that was in [w] is changed and nothing is written. *)
Definition extends (w w' : World) (h' : PrettyslogHandler) : Prop :=
  (exists r1, strArrays w' = strArrays w ++ r1)
  /\ (exists r2, attrArrays w' = attrArrays w ++ r2)
  /\ handlers w' = handlers w ++ [h']
  /\ trace w' = trace w.

(** The character [c] occurs in none of the texts a line is made of: the
    scope label, the formatted time, the file of the call site, the message,
    the keys and the printed values. *)
Definition texts_free (c : ascii) (rt : Runtime) (o : options) (groupName : string)
    (inherited : list Attr) (r : slog_Record rt) : bool :=
  (count_char c groupName =? 0)%nat
  && (count_char c (Time_Format rt (r_Time r) (timestampFormat o)) =? 0)%nat
  && (count_char c (CallersFrame rt (r_PC r)).1 =? 0)%nat
  && (count_char c (r_Message r) =? 0)%nat
  && forallb (Attr_free c) (inherited ++ r_attrs r).

(** ** A small run

    A run time and a few records and stores on which the statements below
    are evaluated. *)
Definition sample_rt : Runtime := {|
  Time := nat;
  Time_IsZero := fun t => Nat.eqb t 0;
  Time_Format := fun _ _ => "[12:00:00.000]";
  CallersFrame := fun _ => ("main.go", 42);
  error := string;
  Write_err := fun w _ _ => if Nat.eqb w 7 then Some "broken pipe" else None;
  growslice := fun n => n
|}.

Definition sample_Record (msg : string) (l : Level) (attrs : list Attr)
    : slog_Record sample_rt :=
  Build_slog_Record sample_rt (1%nat : Time sample_rt) msg l 0%N attrs.

(** [NewPrettyslogHandler("app", WithColors(false))] *)
Definition plain_World : World :=
  (NewPrettyslogHandler empty_World "app" [WithColors false]).1.

(** [NewPrettyslogHandler("app", WithWriter(w7))], whose writes fail *)
Definition failing_World : World :=
  (NewPrettyslogHandler empty_World "app" [WithWriter 7%nat]).1.

(** The root handlers of these two stores. *)
Definition plain_handler : PrettyslogHandler := {|
  h_mu := 0; h_writer := os_Stderr;
  h_groups := {| base := Some 0%nat; len := 1; cap := 1 |};
  h_opts := apply_Option (WithColors false) defaultOptions;
  h_attrs := nil_slice
|}.

Definition failing_handler : PrettyslogHandler := {|
  h_mu := 0; h_writer := 7;
  h_groups := {| base := Some 0%nat; len := 1; cap := 1 |};
  h_opts := apply_Option (WithWriter 7) defaultOptions;
  h_attrs := nil_slice
|}.

(** [logger.Info("msg", slog.Group("g", slog.String("a", "1")))] *)
Definition group_Record : slog_Record sample_rt :=
  sample_Record "msg" LevelInfo [mkAttr "g" (GroupValue [mkAttr "a" (StringValue "1")])].

(** [logger.Info("\033[31m")]: a message that carries a colour code *)
Definition escape_Record : slog_Record sample_rt :=
  sample_Record FgRed LevelInfo [].

(** [logger.Debug("msg")] *)
Definition debug_Record : slog_Record sample_rt :=
  sample_Record "msg" LevelDebug [].

(** The lines these records give through [plain_handler]. *)
Definition group_line : string :=
  "app INF [12:00:00.000] msg; ; g.a=1" +:+ String LF "".

Definition escape_line : string :=
  "app INF [12:00:00.000] " +:+ FgRed +:+ String LF "".

(** ** Further notions used to state properties of the code *)

(** The value set by the last option of one kind in [opts], or [d]. *)
Definition last_set {A : Type} (f : Option -> option A) (opts : list Option) (d : A) : A :=
  default d (last (omap f opts)).

Definition set_timestamp (opt : Option) : option bool :=
  match opt with WithTimestamp b => Some b | _ => None end.
Definition set_source (opt : Option) : option bool :=
  match opt with WithSource b => Some b | _ => None end.
Definition set_colors (opt : Option) : option bool :=
  match opt with WithColors b => Some b | _ => None end.
Definition set_level (opt : Option) : option Level :=
  match opt with WithLevel l => Some l | _ => None end.
Definition set_format (opt : Option) : option string :=
  match opt with WithTimestampFormat f => Some f | _ => None end.
Definition set_writer (opt : Option) : option nat :=
  match opt with WithWriter w => Some w | _ => None end.

(** The options [o] with colours disabled. *)
Definition without_colors (o : options) : options := apply_Option (WithColors false) o.

(** The attribute [leaf] inside groups named, from the outside in, by [path]. *)
Definition nest (path : list string) (leaf : Attr) : Attr :=
  fold_right (fun g a => mkAttr g (GroupValue [a])) leaf path.

(** The attribute is not a group. *)
Definition is_scalar (a : Attr) : bool := negb (isGroup (Value_ a)).

(** [n] copies of [s]. *)
Fixpoint repeat_text (n : nat) (s : string) : string :=
  match n with
  | O => ""
  | S n => s +:+ repeat_text n s
  end.

(** The package set-default: the handler its [init] builds (it is then
    installed with [slog.SetDefault]). *)
Definition setdefault_init (w : World) : World * nat :=
  NewPrettyslogHandler w "app"
    [WithSource false; WithLevel LevelDebug; WithColors true].

(** The tests' [stripAnsi]: every match of the regular expression
    [\x1b\[[0-9;]*m] is removed, matches being looked for from left to
    right.  [ansi_params s] is the length of the longest run of [[0-9;]] at
    the head of [s] when an [m] follows it; [ansi_match s] is the length of
    the match that starts at the head of [s]; [stripAnsi_from skip s] drops
    the next [skip] characters, then copies or removes. *)
Definition is_ansi_param (c : ascii) : bool :=
  let n := nat_of_ascii c in
  ((48 <=? n) && (n <=? 57))%nat || Ascii.eqb c ";".

Fixpoint ansi_params (s : string) : option nat :=
  match s with
  | EmptyString => None
  | String c s' =>
    if Ascii.eqb c "m" then Some O
    else if is_ansi_param c then S <$> ansi_params s'
    else None
  end.

Definition ansi_match (s : string) : option nat :=
  match s with
  | String c (String d s') =>
    if Ascii.eqb c ESC && Ascii.eqb d "[" then (fun n => 3 + n)%nat <$> ansi_params s'
    else None
  | _ => None
  end.

Fixpoint stripAnsi_from (skip : nat) (s : string) : string :=
  match s with
  | EmptyString => ""
  | String c s' =>
    match skip with
    | S k => stripAnsi_from k s'
    | O =>
      match ansi_match s with
      | Some (S k) => stripAnsi_from k s'
      | _ => String c (stripAnsi_from O s')
      end
    end
  end.

Definition stripAnsi (str : string) : string := stripAnsi_from O str.

(** The texts the handler writes of its own accord, the final newline
    apart: the spaces and punctuation, the digits of a line number, the level
    tags and the colour codes. *)
Definition own_texts : string :=
  " " +:+ "." +:+ "=" +:+ ":" +:+ ";" +:+ "-0123456789"
  +:+ "DBG" +:+ "INF" +:+ "WAR" +:+ "ERR" +:+ "UNK"
  +:+ FgGray +:+ ColorReset
  +:+ FgMagenta +:+ FgBlue +:+ FgYellow +:+ FgRed +:+ FgWhite.

(** In front of any continuation, [stripAnsi] turns [x] into [y]. *)
Definition strips_to (x y : string) : Prop :=
  forall s, stripAnsi_from O (x +:+ s) = y +:+ stripAnsi_from O s.

(** The colour codes the handler uses. *)
Definition color_codes : list string :=
  [FgGray; ColorReset; FgMagenta; FgBlue; FgYellow; FgRed; FgWhite].

(** [NewPrettyslogHandler("TestApp")], as in the tests, and its handler. *)
Definition color_World : World := (NewPrettyslogHandler empty_World "TestApp" []).1.

Definition color_handler : PrettyslogHandler := {|
  h_mu := 0; h_writer := os_Stderr;
  h_groups := {| base := Some 0%nat; len := 1; cap := 1 |};
  h_opts := defaultOptions;
  h_attrs := nil_slice
|}.

(** [logger.Info("Test message", "key", "value")] *)
Definition test_Record : slog_Record sample_rt :=
  sample_Record "Test message" LevelInfo [mkAttr "key" (StringValue "value")].

(** The text of an attribute, written down from the description of the
    formatter rather than from its code: a scalar is its key under the dotted
    prefix, [=], and its printed value; a group is its children in order,
    each after a separator, under the prefix extended by the key of the
    group.  [formatAttr_attr_text] proves that [formatAttr] writes it. *)
Fixpoint attr_text (o : options) (lc prefix : string) (a : Attr) {struct a} : string :=
  match a with
  | mkAttr k (GroupValue g) =>
    (fix children (l : list Attr) : string :=
       match l with
       | [] => ""
       | x :: l' => separator o +:+ attr_text o lc (dotted prefix k) x +:+ children l'
       end) g
  | mkAttr k v =>
    colorize (dotted prefix k) (colors o) lc
    +:+ colorize "=" (colors o) FgGray
    +:+ colorize (Sprint_v v) (colors o) ""
  end.

(** A scalar attribute without colours: [; key=value]. *)
Definition pair_text (a : Attr) : string :=
  "; " +:+ Key a +:+ "=" +:+ Sprint_v (Value_ a).

(** [plain_World] after
    [WithAttrs([session_id=abc123])] on its root handler, and the derived
    handler, which is at pointer 1. *)
Definition session_World : World :=
  default plain_World
    (fst <$> WithAttrs sample_rt plain_World 0 [mkAttr "session_id" (StringValue "abc123")]).

Definition session_handler : PrettyslogHandler := {|
  h_mu := 0; h_writer := os_Stderr;
  h_groups := {| base := Some 0%nat; len := 1; cap := 1 |};
  h_opts := apply_Option (WithColors false) defaultOptions;
  h_attrs := {| base := Some 0%nat; len := 1; cap := 2 |}
|}.

(** [logger.Info("Session message", "user", "johndoe")] *)
Definition user_Record : slog_Record sample_rt :=
  sample_Record "Session message" LevelInfo [mkAttr "user" (StringValue "johndoe")].

Definition session_line : string :=
  "app INF [12:00:00.000] Session message; session_id=abc123; request_id=7; user=johndoe"
  +:+ String LF "".

(** Induction on attributes, through the children of a group. *)
Section Attr_induction.
Variable P : Attr -> Prop.
Hypothesis Hscalar : forall k v, isGroup v = false -> P (mkAttr k v).
Hypothesis Hgroup : forall k g, Forall P g -> P (mkAttr k (GroupValue g)).

Fixpoint Attr_induction (a : Attr) : P a :=
  match a with
  | mkAttr k v =>
    match v return P (mkAttr k v) with
    | GroupValue g =>
      Hgroup k g
        ((fix children (l : list Attr) : Forall P l :=
            match l with
            | [] => @List.Forall_nil _ P
            | x :: l' => @List.Forall_cons _ P x l' (Attr_induction x) (children l')
            end) g)
    | StringValue s => Hscalar k (StringValue s) eq_refl
    | Int64Value i => Hscalar k (Int64Value i) eq_refl
    | BoolValue b => Hscalar k (BoolValue b) eq_refl
    | AnyValue t => Hscalar k (AnyValue t) eq_refl
    end
  end.
End Attr_induction.

(** ** Strings: append, occurrences *)

Lemma append_nil_l (t : string) : "" +:+ t = t.
Proof. reflexivity. Qed.

Lemma append_cons (c : ascii) (s t : string) : String c s +:+ t = String c (s +:+ t).
Proof. reflexivity. Qed.

Ltac app_simpl := rewrite ?append_cons, ?append_nil_l; simpl.

Lemma append_nil_r (s : string) : s +:+ "" = s.
Proof. induction s as [|c s IH]; app_simpl; [reflexivity | now rewrite IH]. Qed.

Lemma append_assoc (a b c : string) : (a +:+ b) +:+ c = a +:+ b +:+ c.
Proof. induction a as [|x a IH]; app_simpl; [reflexivity | now rewrite IH]. Qed.

Lemma count_char_app (c : ascii) (a b : string) :
  count_char c (a +:+ b) = (count_char c a + count_char c b)%nat.
Proof. induction a as [|x a IH]; app_simpl; [reflexivity | rewrite IH; lia]. Qed.

Lemma prefix_app (p s : string) : String.prefix p (p +:+ s) = true.
Proof.
  induction p as [|x p IH]; app_simpl.
  - now destruct s.
  - destruct (ascii_dec x x); [exact IH | congruence].
Qed.

Lemma prefix_split (p t : string) :
  String.prefix p t = true -> exists r, t = p +:+ r.
Proof.
  revert t; induction p as [|x p IH]; intros t H.
  - now exists t.
  - destruct t as [|y t]; simpl in H; [discriminate |].
    destruct (ascii_dec x y) as [->|]; [| discriminate].
    destruct (IH _ H) as [r ->]. now exists r.
Qed.

Lemma first_index_free_app (c : ascii) (q s : string) :
  count_char c q = O ->
  first_index c (q +:+ s) = (fun m => String.length q + m)%nat <$> first_index c s.
Proof.
  induction q as [|x q IH]; app_simpl; intros H.
  - now destruct (first_index c s).
  - destruct (Ascii.eqb c x); [discriminate |].
    rewrite IH by lia. now destruct (first_index c s).
Qed.

Lemma first_index_hit (c : ascii) (q s : string) :
  count_char c q = O ->
  first_index c (q +:+ String c s) = Some (String.length q).
Proof.
  intros H. rewrite first_index_free_app by exact H. simpl.
  rewrite Ascii.eqb_refl. simpl. f_equal. lia.
Qed.

Lemma strlen_app (a b : string) :
  String.length (a +:+ b) = (String.length a + String.length b)%nat.
Proof. induction a as [|x a IH]; app_simpl; [reflexivity | now rewrite IH]. Qed.

Lemma count_sub_cons (p : string) (c : ascii) (s : string) :
  count_sub p (String c s)
  = ((if String.prefix p (String c s) then 1 else 0) + count_sub p s)%nat.
Proof. reflexivity. Qed.

(** *** Occurrences of a pattern with a single [;]

    The pattern is [pre ; post] with no [;] in [pre] and [post]: an
    occurrence is found by its [;] alone. *)
Section Occurrences.
Variables pre post : string.
Hypothesis Hpre : count_char semicolon pre = O.
Hypothesis Hpost : count_char semicolon post = O.

Local Abbreviation p := (pattern pre post).
Local Abbreviation k := (String.length pre).

Lemma prefix_first (t : string) :
  String.prefix p t = true -> first_index semicolon t = Some k.
Proof.
  intros H. destruct (prefix_split _ _ H) as [r ->].
  unfold pattern. rewrite append_assoc, append_cons.
  now apply first_index_hit.
Qed.

Lemma counted_text (q : string) :
  count_char semicolon q = O -> counted p k q O.
Proof.
  intros Hq s Hs. split.
  - induction q as [|c q IH]; [reflexivity |].
    rewrite append_cons, count_sub_cons.
    assert (Hq' : count_char semicolon q = O).
    { simpl in Hq. destruct (Ascii.eqb semicolon c); lia. }
    rewrite (IH Hq').
    destruct (String.prefix p (String c (q +:+ s))) eqn:E; [| reflexivity].
    apply prefix_first in E. rewrite <- append_cons in E.
    rewrite first_index_free_app in E by exact Hq.
    unfold lead_ok in Hs. destruct (first_index semicolon s); simpl in E;
      [injection E as E; lia | discriminate].
  - unfold lead_ok in *. rewrite first_index_free_app by exact Hq.
    destruct (first_index semicolon s); simpl; [lia | exact I].
Qed.

Lemma skip_suffix (s : string) (q0 q : string) :
  lead_ok k s -> pre = q0 +:+ q -> q0 <> "" ->
  count_sub p (q +:+ String semicolon (post +:+ s)) = count_sub p s.
Proof.
  intros Hs. revert q0. induction q as [|c q IH]; intros q0 E Hq0.
  - rewrite append_nil_l, count_sub_cons.
    destruct (String.prefix p _) eqn:F.
    + apply prefix_first in F. simpl in F.
      injection F as F. rewrite E, append_nil_r in F.
      destruct q0; [congruence | discriminate].
    + apply (counted_text post Hpost s Hs).
  - assert (Hq : count_char semicolon (String c q) = O).
    { rewrite E, count_char_app in Hpre. lia. }
    rewrite append_cons, count_sub_cons.
    destruct (String.prefix p _) eqn:F.
    + apply prefix_first in F. rewrite <- append_cons in F.
      rewrite first_index_hit in F by exact Hq.
      injection F as F. rewrite E, strlen_app in F.
      destruct q0; [congruence | simpl in F; lia].
    + simpl. apply (IH (q0 +:+ String c "")).
      * now rewrite E, append_assoc.
      * destruct q0; discriminate.
Qed.

Lemma counted_sep : counted p k p 1.
Proof.
  intros s Hs. split.
  - set (P := pattern pre post).
    assert (F : String.prefix P (P +:+ s) = true) by apply prefix_app.
    assert (C : pre = "" \/ exists c pre', pre = String c pre')
      by (clear; destruct pre; eauto).
    assert (U : P +:+ s = pre +:+ String semicolon (post +:+ s))
      by (unfold P, pattern; now rewrite append_assoc, append_cons).
    rewrite U in F |- *. destruct C as [E | (c & pre' & E)].
    + rewrite E, append_nil_l in F |- *. rewrite count_sub_cons, F.
      f_equal. apply (counted_text post Hpost s Hs).
    + rewrite E, append_cons in F |- *. rewrite count_sub_cons, F.
      f_equal. apply (skip_suffix s (String c "") pre' Hs); [exact E | discriminate].
  - unfold lead_ok, pattern. rewrite append_assoc, append_cons.
    rewrite first_index_hit by exact Hpre. lia.
Qed.

Lemma counted_app (a b : string) (n m : nat) :
  counted p k a n -> counted p k b m -> counted p k (a +:+ b) (n + m).
Proof.
  intros Ha Hb s Hs. rewrite append_assoc.
  destruct (Hb s Hs) as [Eb Lb]. destruct (Ha _ Lb) as [Ea La].
  split; [rewrite Ea, Eb; lia | exact La].
Qed.

Lemma counted_total (out : string) (n : nat) :
  counted p k out n -> count_sub p out = n.
Proof.
  intros H. destruct (H "" I) as [E _].
  rewrite append_nil_r in E. rewrite E. simpl. lia.
Qed.
End Occurrences.

(** ** The attribute formatter as a text *)

Section Formatter.
Variable o : options.

Lemma loop_text (lc prefix : string) (g : list Attr) :
  Forall (fun a => forall b lc prefix,
            formatAttr o b a lc prefix = b +:+ formatAttr o "" a lc prefix) g ->
  forall b, fold_left (turn o lc prefix) g b
            = b +:+ concat_map (fun a => separator o +:+ formatAttr o "" a lc prefix) g.
Proof.
  induction 1 as [|a g Ha _ IH]; intros b; cbn [fold_left concat_map fold_right].
  - now rewrite append_nil_r.
  - rewrite IH. unfold turn. rewrite Ha. unfold WriteString, separator.
    now rewrite !append_assoc.
Qed.

Lemma formatAttr_unfold_group (b : Builder) (k : string) (g : list Attr)
    (lc prefix : string) :
  formatAttr o b (mkAttr k (GroupValue g)) lc prefix
  = fold_left (turn o lc (dotted prefix k)) g b.
Proof. reflexivity. Qed.

Lemma formatAttr_scalar (b : Builder) (k : string) (v : Value) (lc prefix : string) :
  isGroup v = false ->
  formatAttr o b (mkAttr k v) lc prefix
  = b +:+ colorize (dotted prefix k) (colors o) lc
      +:+ colorize "=" (colors o) FgGray
      +:+ colorize (Sprint_v v) (colors o) "".
Proof.
  intros H. destruct v; try discriminate H;
    simpl; unfold WriteString, dotted; now rewrite !append_assoc.
Qed.

(** Writing an attribute only appends to the builder. *)
Lemma formatAttr_builder (a : Attr) :
  forall b lc prefix, formatAttr o b a lc prefix = b +:+ formatAttr o "" a lc prefix.
Proof.
  induction a as [k v Hv | k g IH] using Attr_induction; intros b lc prefix.
  - rewrite !formatAttr_scalar by exact Hv. now rewrite append_nil_l.
  - rewrite !formatAttr_unfold_group, !loop_text by exact IH.
    now rewrite append_nil_l.
Qed.

Lemma formatAttr_group (k : string) (g : list Attr) (lc prefix : string) :
  formatAttr o "" (mkAttr k (GroupValue g)) lc prefix
  = concat_map (fun a => separator o +:+ formatAttr o "" a lc (dotted prefix k)) g.
Proof.
  rewrite formatAttr_unfold_group, loop_text; [apply append_nil_l |].
  apply Forall_forall. intros a _. apply formatAttr_builder.
Qed.

Lemma formatAttrs_text (attrs : list Attr) (lc : string) :
  formatAttrs o attrs lc
  = concat_map (fun a => separator o +:+ formatAttr o "" a lc "") attrs.
Proof.
  unfold formatAttrs. change (fold_left _ attrs "") with (fold_left (turn o lc "") attrs "").
  rewrite loop_text; [apply append_nil_l |].
  apply Forall_forall. intros a _. apply formatAttr_builder.
Qed.
End Formatter.

Lemma concat_map_app (f : Attr -> string) (l1 l2 : list Attr) :
  concat_map f (l1 ++ l2) = concat_map f l1 +:+ concat_map f l2.
Proof.
  induction l1 as [|a l1 IH]; simpl; [reflexivity |].
  now rewrite IH, append_assoc.
Qed.

Lemma formatAttrs_app (o : options) (l1 l2 : list Attr) (lc : string) :
  formatAttrs o (l1 ++ l2) lc = formatAttrs o l1 lc +:+ formatAttrs o l2 lc.
Proof. rewrite !formatAttrs_text. apply concat_map_app. Qed.

(** ** What [Handle] writes *)

Lemma colorize_plain (text : string) (enable : bool) : colorize text enable "" = text.
Proof. unfold colorize. now rewrite orb_true_r. Qed.

Lemma colorize_off (text code : string) : colorize text false code = text.
Proof. reflexivity. Qed.

Lemma snoc_loop (l acc : list Attr) :
  fold_left (fun attrs a => attrs ++ [a]) l acc = acc ++ l.
Proof.
  revert acc; induction l as [|a l IH]; intros acc; simpl.
  - now rewrite app_nil_r.
  - now rewrite IH, <- app_assoc.
Qed.

Lemma collectAttrs_app (rt : Runtime) (w : World) (h : PrettyslogHandler)
    (r : slog_Record rt) :
  collectAttrs rt w h r = attrs_of w h ++ r_attrs r.
Proof. unfold collectAttrs. now rewrite snoc_loop. Qed.

Lemma formatAttrs_nil (o : options) (lc : string) : formatAttrs o [] lc = "".
Proof. reflexivity. Qed.

Lemma Handle_line (rt : Runtime) (w : World) (p : nat) (h : PrettyslogHandler)
    (r : slog_Record rt) (g : string) :
  handlers w !! p = Some h ->
  Enabled h (r_Level r) = true ->
  index (strArrays w) (h_groups h) (Z.of_nat (len (h_groups h)) - 1) = Some g ->
  Handle rt w p r
  = Some ({| strArrays := strArrays w; attrArrays := attrArrays w;
             handlers := handlers w; mutexes := mutexes w;
             trace := trace w ++ [(h_writer h, line rt (h_opts h) g (attrs_of w h) r)] |},
          Write_err rt (h_writer h) (trace w) (line rt (h_opts h) g (attrs_of w h) r)).
Proof.
  intros Hh He Hg. unfold Handle. rewrite Hh. simpl. rewrite He. simpl.
  rewrite Hg. simpl.
  assert (E : forall b : Builder,
    (if (0 <? length (collectAttrs rt w h r))%nat
     then WriteString b (formatAttrs (h_opts h) (collectAttrs rt w h r)
                           (attrColor (h_opts h) (r_Level r)))
     else b)
    = b +:+ formatAttrs (h_opts h) (attrs_of w h ++ r_attrs r)
              (attrColor (h_opts h) (r_Level r))).
  { intros b. rewrite collectAttrs_app.
    destruct (attrs_of w h ++ r_attrs r) as [|a l]; simpl length.
    - simpl. now rewrite formatAttrs_nil, append_nil_r.
    - reflexivity. }
  fold (attrColor (h_opts h) (r_Level r)). rewrite E.
  unfold line, line_tail, after_label, timestamp_part, source_part, source_text, WriteString.
  destruct (CallersFrame rt (r_PC r)) as [file ln]. simpl fst. simpl snd.
  destruct (includeTimestamp (h_opts h) && negb (Time_IsZero rt (r_Time r)));
    destruct (includeSource (h_opts h) && negb (r_PC r =? 0)%N);
    rewrite ?append_nil_l, ?append_assoc; reflexivity.
Qed.

Lemma index_last (w : World) (h : PrettyslogHandler) :
  handler_ok w h = true ->
  exists g, index (strArrays w) (h_groups h) (Z.of_nat (len (h_groups h)) - 1) = Some g
            /\ last (groups_of w h) = Some g.
Proof.
  unfold handler_ok, slice_ok, groups_of, elems, index, array_of.
  intros H. apply andb_true_iff in H as [H _].
  apply andb_true_iff in H as [H Hlen]. apply andb_true_iff in H as [H _].
  apply Nat.leb_le in Hlen.
  destruct (base (h_groups h)) as [b|]; [| apply Nat.eqb_eq in H; lia].
  destruct (strArrays w !! b) as [arr|]; [| discriminate]. simpl.
  apply Nat.leb_le in H.
  replace ((0 <=? Z.of_nat (len (h_groups h)) - 1) && _) with true
    by (symmetry; apply andb_true_iff; split; [apply Z.leb_le | apply Z.ltb_lt]; lia).
  replace (Z.to_nat (Z.of_nat (len (h_groups h)) - 1)) with (pred (len (h_groups h))) by lia.
  destruct (lookup_lt_is_Some_2 arr (pred (len (h_groups h)))) as [g Hg]; [lia |].
  exists g. split; [exact Hg |].
  rewrite last_lookup, length_take, Nat.min_l by lia.
  rewrite lookup_take_lt by lia. exact Hg.
Qed.

Lemma World_ok_lookup (w : World) (p : nat) (h : PrettyslogHandler) :
  World_ok w = true -> handlers w !! p = Some h -> handler_ok w h = true.
Proof.
  unfold World_ok. rewrite forallb_forall. intros H Hp.
  apply H. apply list_elem_of_In. eapply list_elem_of_lookup_2. exact Hp.
Qed.

Lemma output_enabled (rt : Runtime) (w : World) (p : nat) (h : PrettyslogHandler)
    (r : slog_Record rt) :
  World_ok w = true -> handlers w !! p = Some h -> Enabled h (r_Level r) = true ->
  exists g, last (groups_of w h) = Some g
    /\ output rt w p r = Some [(h_writer h, line rt (h_opts h) g (attrs_of w h) r)].
Proof.
  intros Hw Hh He.
  destruct (index_last w h (World_ok_lookup w p h Hw Hh)) as (g & Hi & Hl).
  exists g. split; [exact Hl |].
  unfold output. rewrite (Handle_line rt w p h r g Hh He Hi). simpl.
  now rewrite drop_app_length.
Qed.

(** ** Slices: copy, then append *)

Section Copy.
Context {A : Type}.
Variable rt : Runtime.

Lemma elems_nil_slice (hp : list (list A)) : elems hp nil_slice = [].
Proof. reflexivity. Qed.

Lemma array_of_fresh (hp : list (list A)) (arr : list A) (s : slice) :
  base s = Some (length hp) -> array_of (hp ++ [arr]) s = arr.
Proof.
  intros H. unfold array_of. rewrite H.
  now rewrite (list_lookup_middle hp [] arr (length hp) eq_refl).
Qed.

Lemma insert_fresh (hp : list (list A)) (u v : list A) :
  <[length hp := v]> (hp ++ [u]) = hp ++ [v].
Proof.
  replace (length hp) with (length hp + 0)%nat at 1 by lia.
  now rewrite insert_app_r.
Qed.

(** [append(append([]T{}, e...), xs...)] with [xs] not empty: the result
    lives in a backing array that did not exist before, and no array that
    existed is touched. *)
Lemma copy_append (hp : list (list A)) (e xs : list A)
    (hp1 hp2 : list (list A)) (s1 s2 : slice) :
  append rt hp nil_slice e = (hp1, s1) ->
  append rt hp1 s1 xs = (hp2, s2) ->
  xs <> [] ->
  exists rest b,
    hp2 = hp ++ rest /\ base s2 = Some b /\ (length hp <= b)%nat
    /\ hp2 !! b = Some (e ++ xs) /\ len s2 = length (e ++ xs).
Proof.
  intros E1 E2 Hxs. destruct xs as [|x xs]; [congruence | clear Hxs].
  destruct e as [|y e].
  - injection E1 as <- <-. unfold append in E2. simpl in E2.
    injection E2 as <- <-. exists [x :: xs], (length hp). simpl.
    repeat split; [lia | apply list_lookup_middle; reflexivity].
  - unfold append in E1. simpl in E1. injection E1 as <- <-.
    unfold append in E2. cbn [len cap base] in E2.
    destruct (_ <=? _)%nat eqn:C.
    + unfold elems in E2. rewrite !array_of_fresh in E2 by reflexivity.
      injection E2 as <- <-.
      exists [(y :: e) ++ x :: xs], (length hp). cbn [base len].
      change (S (length e)) with (length (y :: e)).
      rewrite firstn_all, drop_ge, app_nil_r by lia.
      rewrite insert_fresh.
      repeat split; [lia | apply list_lookup_middle; reflexivity
                    | rewrite (length_app (y :: e)); reflexivity ].
    + unfold elems in E2. rewrite !array_of_fresh in E2 by reflexivity.
      cbn [len] in E2. change (S (length e)) with (length (y :: e)) in E2.
      rewrite firstn_all in E2. injection E2 as <- <-.
      exists [y :: e; (y :: e) ++ x :: xs], (length (hp ++ [y :: e])). cbn [base len].
      repeat split.
      * now rewrite <- app_assoc.
      * rewrite length_app. lia.
      * apply list_lookup_middle; reflexivity.
      * rewrite (length_app (y :: e)); reflexivity.
Qed.

(** Growing the store of arrays keeps the well-formed slices. *)
Lemma slice_ok_grow (hp rest : list (list A)) (s : slice) :
  slice_ok hp s = true ->
  slice_ok (hp ++ rest) s = true /\ elems (hp ++ rest) s = elems hp s.
Proof.
  unfold slice_ok, elems, array_of. destruct (base s) as [b|]; [| tauto].
  destruct (hp !! b) as [arr|] eqn:E; [| discriminate].
  intros H. now rewrite (lookup_app_l_Some _ _ _ _ E).
Qed.

Lemma slice_ok_fresh (hp : list (list A)) (s : slice) (b : nat) (arr : list A) :
  base s = Some b -> hp !! b = Some arr -> len s = length arr ->
  slice_ok hp s = true /\ elems hp s = arr.
Proof.
  intros Hb Ha Hl. unfold slice_ok, elems, array_of. rewrite Hb, Ha. simpl.
  rewrite Hl. split; [apply Nat.leb_refl | apply firstn_all].
Qed.
End Copy.

(** ** Deriving handlers *)

Section Derive.
Variable rt : Runtime.

Lemma WithAttrs_spec (w : World) (p : nat) (h : PrettyslogHandler) (attrs : list Attr) :
  handlers w !! p = Some h -> attrs <> [] ->
  exists w' h',
    WithAttrs rt w p attrs = Some (w', length (handlers w))
    /\ extends w w' h'
    /\ strArrays w' = strArrays w
    /\ h_groups h' = h_groups h /\ h_opts h' = h_opts h
    /\ h_writer h' = h_writer h /\ h_mu h' = h_mu h
    /\ exists b, base (h_attrs h') = Some b
         /\ (length (attrArrays w) <= b)%nat
         /\ attrArrays w' !! b = Some (attrs_of w h ++ attrs)
         /\ len (h_attrs h') = length (attrs_of w h ++ attrs).
Proof.
  intros Hh Hne. unfold WithAttrs. rewrite Hh.
  destruct attrs as [|a attrs]; [congruence |]. cbn [mbind option_bind].
  destruct (append rt (attrArrays w) nil_slice _) as [hp1 s1] eqn:E1.
  destruct (append rt hp1 s1 (a :: attrs)) as [hp2 s2] eqn:E2.
  destruct (copy_append rt _ _ _ _ _ _ _ E1 E2 Hne) as (rest & b & -> & Hb & Hle & Hl & Hn).
  eexists _, _. split; [reflexivity |]. cbn.
  repeat split; eauto. exists []. now rewrite app_nil_r.
Qed.

Lemma WithGroup_spec (w : World) (p : nat) (h : PrettyslogHandler) (name : string) :
  handlers w !! p = Some h -> name <> "" ->
  exists w' h',
    WithGroup rt w p name = Some (w', length (handlers w))
    /\ extends w w' h'
    /\ attrArrays w' = attrArrays w
    /\ h_attrs h' = h_attrs h /\ h_opts h' = h_opts h
    /\ h_writer h' = h_writer h /\ h_mu h' = h_mu h
    /\ exists b, base (h_groups h') = Some b
         /\ (length (strArrays w) <= b)%nat
         /\ strArrays w' !! b = Some (groups_of w h ++ [name])
         /\ len (h_groups h') = length (groups_of w h ++ [name]).
Proof.
  intros Hh Hne. unfold WithGroup. rewrite Hh.
  destruct (String.eqb_spec name ""); [congruence |]. cbn [mbind option_bind].
  destruct (append rt (strArrays w) nil_slice _) as [hp1 s1] eqn:E1.
  destruct (append rt hp1 s1 [name]) as [hp2 s2] eqn:E2.
  destruct (copy_append rt _ _ _ _ _ _ _ E1 E2 ltac:(discriminate))
    as (rest & b & -> & Hb & Hle & Hl & Hn).
  eexists _, _. split; [reflexivity |]. cbn.
  repeat split; eauto. exists []. now rewrite app_nil_r.
Qed.

Lemma handler_ok_grow (w w' : World) (h h' : PrettyslogHandler) :
  extends w w' h' -> handler_ok w h = true ->
  handler_ok w' h = true /\ groups_of w' h = groups_of w h
  /\ attrs_of w' h = attrs_of w h.
Proof.
  intros ((r1 & E1) & (r2 & E2) & _) H. unfold handler_ok in *.
  apply andb_true_iff in H as [H Hc].
  apply andb_true_iff in H as [H Hlen]. apply andb_true_iff in H as [Hg Ha].
  unfold groups_of, attrs_of. rewrite E1, E2.
  destruct (slice_ok_grow (strArrays w) r1 _ Hg) as [-> ->].
  destruct (slice_ok_grow (attrArrays w) r2 _ Ha) as [-> ->].
  now rewrite Hlen, Hc.
Qed.

Lemma extends_ok (w w' : World) (h' : PrettyslogHandler) :
  extends w w' h' -> World_ok w = true -> handler_ok w' h' = true ->
  World_ok w' = true.
Proof.
  intros Hx Hw Hh'. unfold World_ok in *.
  destruct Hx as (X1 & X2 & X3 & X4). rewrite X3, forallb_app. cbn [forallb].
  rewrite Hh'. rewrite andb_true_r. rewrite forallb_forall in *.
  intros h Hin. apply (handler_ok_grow w w' h h'); [repeat split; assumption | auto].
Qed.

Lemma extends_preserved (w w' : World) (h' : PrettyslogHandler) :
  extends w w' h' -> World_ok w = true -> preserved w w'.
Proof.
  intros Hx Hw q hq Hq. split.
  - destruct Hx as (_ & _ & -> & _). now apply lookup_app_l_Some.
  - apply (handler_ok_grow w w' hq h' Hx). exact (World_ok_lookup w q hq Hw Hq).
Qed.

Lemma preserved_refl (w : World) : preserved w w.
Proof. intros q hq Hq. auto. Qed.
End Derive.

(** ** Every reachable store is well formed *)

Section Reachable.
Variable rt : Runtime.

Lemma World_ok_same (w w' : World) :
  strArrays w' = strArrays w -> attrArrays w' = attrArrays w ->
  handlers w' = handlers w -> World_ok w = true -> World_ok w' = true.
Proof.
  unfold World_ok, handler_ok. intros -> -> ->. auto.
Qed.

Lemma Handle_frame (w : World) (p : nat) (r : slog_Record rt) (w' : World)
    (err : option (error rt)) :
  Handle rt w p r = Some (w', err) ->
  strArrays w' = strArrays w /\ attrArrays w' = attrArrays w
  /\ handlers w' = handlers w.
Proof.
  unfold Handle. destruct (handlers w !! p) as [h|]; [| discriminate].
  cbn [mbind option_bind]. destruct (negb _).
  - intros [= <- _]. auto.
  - destruct (index _ _ _); [| discriminate]. cbn [mbind option_bind].
    intros [= <- _]. auto.
Qed.

Lemma options_levelColors (opts : list Option) (o : options) :
  levelColors (fold_left (fun o opt => apply_Option opt o) opts o) = levelColors o.
Proof.
  revert o; induction opts as [|opt opts IH]; intros o; [reflexivity |].
  cbn [fold_left]. rewrite IH. now destruct opt.
Qed.

Lemma New_ok (w : World) (group : string) (opts : list Option) :
  World_ok w = true -> World_ok (NewPrettyslogHandler w group opts).1 = true.
Proof.
  intros Hw. unfold NewPrettyslogHandler. cbn [fst].
  eapply extends_ok; [| exact Hw |].
  - repeat split; cbn; eauto. exists []. now rewrite app_nil_r.
  - destruct (slice_ok_fresh (strArrays w ++ [[group]])
                {| base := Some (length (strArrays w)); len := 1; cap := 1 |}
                (length (strArrays w)) [group] eq_refl
                (list_lookup_middle _ [] _ _ eq_refl) eq_refl) as [E _].
    unfold handler_ok. cbn [h_groups h_attrs h_opts strArrays attrArrays].
    rewrite E, options_levelColors. reflexivity.
Qed.

Lemma WithAttrs_ok (w : World) (p : nat) (attrs : list Attr) (w' : World) (p' : nat) :
  World_ok w = true -> WithAttrs rt w p attrs = Some (w', p') ->
  World_ok w' = true /\ preserved w w'.
Proof.
  intros Hw H. destruct attrs as [|a attrs].
  - injection H as <- <-. split; [exact Hw | apply preserved_refl].
  - destruct (handlers w !! p) as [h|] eqn:Hh;
      [| unfold WithAttrs in H; rewrite Hh in H; discriminate].
    destruct (WithAttrs_spec rt w p h (a :: attrs) Hh ltac:(discriminate))
      as (w1 & h1 & E & Hx & Hs & Hg & Ho & _ & _ & b & Hb & _ & Hl & Hn).
    rewrite E in H. injection H as <- <-.
    split; [| now apply (extends_preserved w w1 h1)].
    apply (extends_ok w w1 h1 Hx Hw).
    pose proof (World_ok_lookup w p h Hw Hh) as Hok.
    destruct (handler_ok_grow w w1 h h1 Hx Hok) as (Hok1 & _).
    unfold handler_ok in *. rewrite Hg, Ho.
    apply andb_true_iff in Hok1 as [Hok1 ->].
    apply andb_true_iff in Hok1 as [Hok1 ->]. apply andb_true_iff in Hok1 as [-> _].
    now destruct (slice_ok_fresh _ _ _ _ Hb Hl Hn) as [-> _].
Qed.

Lemma WithGroup_ok (w : World) (p : nat) (name : string) (w' : World) (p' : nat) :
  World_ok w = true -> WithGroup rt w p name = Some (w', p') ->
  World_ok w' = true /\ preserved w w'.
Proof.
  intros Hw H. destruct (String.eqb_spec name "") as [-> | Hne].
  - injection H as <- <-. split; [exact Hw | apply preserved_refl].
  - destruct (handlers w !! p) as [h|] eqn:Hh.
    2:{ unfold WithGroup in H. rewrite Hh in H.
        destruct (String.eqb name ""); [| discriminate].
        injection H as <- <-. split; [exact Hw | apply preserved_refl]. }
    destruct (WithGroup_spec rt w p h name Hh Hne)
      as (w1 & h1 & E & Hx & Hs & Ha & Ho & _ & _ & b & Hb & _ & Hl & Hn).
    rewrite E in H. injection H as <- <-.
    split; [| now apply (extends_preserved w w1 h1)].
    apply (extends_ok w w1 h1 Hx Hw).
    pose proof (World_ok_lookup w p h Hw Hh) as Hok.
    destruct (handler_ok_grow w w1 h h1 Hx Hok) as (Hok1 & _).
    unfold handler_ok in *. rewrite Ha, Ho.
    apply andb_true_iff in Hok1 as [Hok1 ->].
    apply andb_true_iff in Hok1 as [Hok1 _]. apply andb_true_iff in Hok1 as [_ ->].
    destruct (slice_ok_fresh _ _ _ _ Hb Hl Hn) as [-> _].
    rewrite Hn, length_app, andb_true_r. apply Nat.leb_le. cbn [length]. lia.
Qed.

Lemma reachable_ok (w : World) : reachable rt w -> World_ok w = true.
Proof.
  induction 1 as [| w group opts _ IH | w p attrs w' p' _ IH H
                 | w p name w' p' _ IH H | w p r w' err _ IH H].
  - reflexivity.
  - now apply New_ok.
  - exact (proj1 (WithAttrs_ok w p attrs w' p' IH H)).
  - exact (proj1 (WithGroup_ok w p name w' p' IH H)).
  - destruct (Handle_frame w p r w' err H) as (E1 & E2 & E3).
    now apply (World_ok_same w w').
Qed.
End Reachable.

(** ** Characters the handler does not add *)

Lemma formatLevel_color (o : options) (l : Level) :
  exists tag, formatLevel o l = colorize tag (colors o) (attrColor o l)
    /\ In tag ["DBG"; "INF"; "WAR"; "ERR"; "UNK"].
Proof.
  unfold formatLevel, attrColor.
  destruct (l =? LevelDebug); [eexists; split; [reflexivity | simpl; tauto] |].
  destruct (l =? LevelInfo); [eexists; split; [reflexivity | simpl; tauto] |].
  destruct (l =? LevelWarn); [eexists; split; [reflexivity | simpl; tauto] |].
  destruct (l =? LevelError); eexists; (split; [reflexivity | simpl; tauto]).
Qed.

Lemma attrColor_default (o : options) (l : Level) :
  levelColors o = levelColors defaultOptions ->
  In (attrColor o l) [FgMagenta; FgBlue; FgYellow; FgRed; FgWhite].
Proof.
  intros E. unfold attrColor, levelColor_of. rewrite E.
  unfold defaultOptions. cbn [levelColors].
  rewrite !lookup_insert, lookup_empty.
  repeat case_decide; simpl; tauto.
Qed.

Lemma handler_ok_color (w : World) (h : PrettyslogHandler) (l : Level) :
  handler_ok w h = true -> count_char semicolon (attrColor (h_opts h) l) = O.
Proof.
  unfold handler_ok. intros H. apply andb_true_iff in H as [_ H].
  apply bool_decide_eq_true in H.
  pose proof (attrColor_default (h_opts h) l H) as Hin. simpl in Hin.
  destruct Hin as [<- | [<- | [<- | [<- | [<- | []]]]]]; reflexivity.
Qed.

Section Free.
Variable c : ascii.
Hypothesis Hc : c = semicolon \/ c = ESC.

Lemma uint_free (d : Decimal.uint) : count_char c (NilEmpty.string_of_uint d) = O.
Proof.
  destruct Hc as [-> | ->]; induction d; simpl; auto.
Qed.

Lemma itoa_free (z : Z) : count_char c (itoa z) = O.
Proof.
  unfold itoa, NilZero.string_of_int, NilZero.string_of_uint.
  destruct (Z.to_int z) as [d | d].
  - destruct d; try apply (uint_free (_ _)). destruct Hc as [-> | ->]; reflexivity.
  - assert (H : count_char c (String "-" "") = O)
      by (destruct Hc as [-> | ->]; reflexivity).
    change (String "-"%char ?s) with (String "-" "" +:+ s).
    rewrite count_char_app, H.
    destruct d; try apply (uint_free (_ _)). destruct Hc as [-> | ->]; reflexivity.
Qed.

Lemma dotted_free (prefix key : string) :
  count_char c prefix = O -> count_char c key = O ->
  count_char c (dotted prefix key) = O.
Proof.
  intros Hp Hk. unfold dotted. destruct (String.eqb prefix ""); [exact Hk |].
  rewrite !count_char_app, Hp, Hk. destruct Hc as [-> | ->]; reflexivity.
Qed.
End Free.

(** ** Counting the separators of the formatter *)

Lemma semicolon_cases : semicolon = semicolon \/ semicolon = ESC.
Proof. now left. Qed.

Section Separators.
Variable o : options.

Lemma sep_pre_free : count_char semicolon (sep_pre o) = O.
Proof. unfold sep_pre. now destruct (colors o). Qed.

Lemma sep_post_free : count_char semicolon (sep_post o) = O.
Proof. unfold sep_post. now destruct (colors o). Qed.

Lemma separator_split : separator o = pattern (sep_pre o) (sep_post o).
Proof. unfold separator, pattern, sep_pre, sep_post, colorize. now destruct (colors o). Qed.

Lemma seps_text (q : string) : count_char semicolon q = O -> seps o q O.
Proof.
  unfold seps. rewrite separator_split.
  apply counted_text; [apply sep_pre_free | apply sep_post_free].
Qed.

Lemma seps_sep : seps o (separator o) 1.
Proof.
  unfold seps. rewrite separator_split.
  apply counted_sep; [apply sep_pre_free | apply sep_post_free].
Qed.

Lemma seps_app (a b : string) (n m : nat) :
  seps o a n -> seps o b m -> seps o (a +:+ b) (n + m).
Proof.
  unfold seps. rewrite separator_split.
  apply counted_app; first [apply sep_pre_free | apply sep_post_free].
Qed.

Lemma seps_total (out : string) (n : nat) :
  seps o out n -> count_sub (separator o) out = n.
Proof.
  unfold seps. rewrite separator_split.
  apply counted_total; [apply sep_pre_free | apply sep_post_free].
Qed.

Lemma colorize_semi (t : string) (e : bool) (code : string) :
  count_char semicolon t = O -> count_char semicolon code = O ->
  count_char semicolon (colorize t e code) = O.
Proof.
  intros Ht Hcode. unfold colorize. destruct (negb e || String.eqb code ""); [exact Ht |].
  now rewrite !count_char_app, Ht, Hcode.
Qed.

Lemma seps_concat_map (f : Attr -> string) (n : Attr -> nat) (g : list Attr) :
  Forall (fun a => seps o (f a) (n a)) g ->
  seps o (concat_map f g) (sum_list_with n g).
Proof.
  induction 1 as [|a g Ha _ IH]; cbn [concat_map fold_right sum_list_with].
  - now apply seps_text.
  - now apply seps_app.
Qed.

(** An attribute with the separator in front of it: one separator for each
    of its nodes. *)
Lemma formatAttr_seps (a : Attr) :
  Attr_free semicolon a = true ->
  forall lc prefix,
    count_char semicolon lc = O -> count_char semicolon prefix = O ->
    seps o (separator o +:+ formatAttr o "" a lc prefix) (nodes a).
Proof.
  induction a as [k v Hv | k g IH] using Attr_induction; intros Hf lc prefix Hlc Hp.
  - assert (Hk : count_char semicolon k = O /\ count_char semicolon (Sprint_v v) = O).
    { destruct v; try discriminate Hv; cbn [Attr_free] in Hf;
        apply andb_true_iff in Hf as [H1 H2];
        apply Nat.eqb_eq in H1, H2; auto. }
    destruct Hk as [Hk Hval].
    replace (nodes (mkAttr k v)) with (1 + 0)%nat by (destruct v; try discriminate Hv; reflexivity).
    apply seps_app; [apply seps_sep |].
    rewrite formatAttr_scalar by exact Hv. rewrite append_nil_l.
    apply seps_text. rewrite !count_char_app.
    rewrite !colorize_semi; auto.
    apply dotted_free; auto using semicolon_cases.
  - cbn [Attr_free] in Hf. apply andb_true_iff in Hf as [Hk Hg].
    apply Nat.eqb_eq in Hk. cbn [nodes].
    change (S (sum_list_with nodes g)) with (1 + sum_list_with nodes g)%nat.
    apply seps_app; [apply seps_sep |].
    rewrite formatAttr_group. apply seps_concat_map.
    rewrite forallb_forall in Hg. rewrite Forall_forall in IH. apply Forall_forall.
    intros a Ha. apply IH; auto.
    + apply Hg. now apply list_elem_of_In.
    + apply dotted_free; auto using semicolon_cases.
Qed.

Lemma formatAttrs_seps (attrs : list Attr) (lc : string) :
  forallb (Attr_free semicolon) attrs = true -> count_char semicolon lc = O ->
  seps o (formatAttrs o attrs lc) (sum_list_with nodes attrs).
Proof.
  intros Hf Hlc. rewrite formatAttrs_text. apply seps_concat_map.
  rewrite forallb_forall in Hf. apply Forall_forall. intros a Ha.
  apply formatAttr_seps; auto. apply Hf. now apply list_elem_of_In.
Qed.
End Separators.

Lemma texts_free_elim (c : ascii) (rt : Runtime) (o : options) (g : string)
    (inh : list Attr) (r : slog_Record rt) :
  texts_free c rt o g inh r = true ->
  count_char c g = O
  /\ count_char c (Time_Format rt (r_Time r) (timestampFormat o)) = O
  /\ count_char c (CallersFrame rt (r_PC r)).1 = O
  /\ count_char c (r_Message r) = O
  /\ forallb (Attr_free c) (inh ++ r_attrs r) = true.
Proof.
  unfold texts_free. intros H.
  apply andb_true_iff in H as [H H5]. apply andb_true_iff in H as [H H4].
  apply andb_true_iff in H as [H H3]. apply andb_true_iff in H as [H1 H2].
  apply Nat.eqb_eq in H1, H2, H3, H4. auto.
Qed.

Lemma source_text_free (c : ascii) (rt : Runtime) (r : slog_Record rt) :
  c = semicolon \/ c = ESC ->
  count_char c (CallersFrame rt (r_PC r)).1 = O -> count_char c (source_text rt r) = O.
Proof.
  intros Hc H. unfold source_text.
  rewrite !count_char_app, H, (itoa_free c Hc).
  destruct Hc as [-> | ->]; reflexivity.
Qed.

(** The separators of a whole line. *)
Lemma line_seps (rt : Runtime) (o : options) (g : string) (inh : list Attr)
    (r : slog_Record rt) :
  texts_free semicolon rt o g inh r = true ->
  count_char semicolon (attrColor o (r_Level r)) = O ->
  count_sub (separator o) (line rt o g inh r) = sum_list_with nodes (inh ++ r_attrs r).
Proof.
  intros Hf Hlc. apply texts_free_elim in Hf as (Hg & Ht & Hs & Hm & Ha).
  apply seps_total. unfold line, line_tail.
  replace (sum_list_with nodes (inh ++ r_attrs r))
    with (0 + (0 + (0 + (sum_list_with nodes (inh ++ r_attrs r) + 0))))%nat by lia.
  repeat apply seps_app.
  - apply seps_text. now rewrite colorize_plain.
  - now apply seps_text.
  - apply seps_text. unfold after_label, timestamp_part, source_part.
    destruct (formatLevel_color o (r_Level r)) as (tag & -> & Htag).
    rewrite !count_char_app.
    assert (T : count_char semicolon tag = O)
      by (simpl in Htag; destruct Htag as [<- | [<- | [<- | [<- | [<- | []]]]]];
          reflexivity).
    rewrite (colorize_semi tag), (colorize_semi (r_Message r)) by auto.
    destruct (includeTimestamp o && _); destruct (includeSource o && _);
      rewrite ?count_char_app, ?colorize_semi;
      auto using source_text_free, semicolon_cases.
  - now apply formatAttrs_seps.
  - now apply seps_text.
Qed.

(** *** Colours disabled: no escape character is added *)
Section Plain.
Variable o : options.
Hypothesis Hoff : colors o = false.

Lemma separator_plain : separator o = "; ".
Proof. unfold separator. now rewrite Hoff. Qed.

Lemma concat_map_free (c : ascii) (f : Attr -> string) (g : list Attr) :
  (forall a, In a g -> count_char c (f a) = O) ->
  count_char c (concat_map f g) = O.
Proof.
  induction g as [|a g IH]; intros H; [reflexivity |].
  cbn [concat_map fold_right]. rewrite count_char_app, (H a) by now left.
  apply IH. intros x Hx. apply H. now right.
Qed.

Lemma formatAttr_plain (a : Attr) :
  Attr_free ESC a = true ->
  forall lc prefix, count_char ESC prefix = O ->
    count_char ESC (formatAttr o "" a lc prefix) = O.
Proof.
  induction a as [k v Hv | k g IH] using Attr_induction; intros Hf lc prefix Hp.
  - assert (Hk : count_char ESC k = O /\ count_char ESC (Sprint_v v) = O).
    { destruct v; try discriminate Hv; cbn [Attr_free] in Hf;
        apply andb_true_iff in Hf as [H1 H2];
        apply Nat.eqb_eq in H1, H2; auto. }
    destruct Hk as [Hk Hval].
    rewrite formatAttr_scalar by exact Hv. rewrite Hoff, !colorize_off.
    rewrite !count_char_app, Hval, dotted_free by auto. reflexivity.
  - cbn [Attr_free] in Hf. apply andb_true_iff in Hf as [Hk Hg].
    apply Nat.eqb_eq in Hk. rewrite formatAttr_group.
    rewrite forallb_forall in Hg. rewrite Forall_forall in IH.
    apply concat_map_free. intros a Ha.
    rewrite count_char_app, separator_plain.
    rewrite IH; [reflexivity | now apply list_elem_of_In | now apply Hg |].
    apply dotted_free; auto.
Qed.

Lemma formatAttrs_plain (attrs : list Attr) (lc : string) :
  forallb (Attr_free ESC) attrs = true ->
  count_char ESC (formatAttrs o attrs lc) = O.
Proof.
  intros Hf. rewrite formatAttrs_text. rewrite forallb_forall in Hf.
  apply concat_map_free. intros a Ha.
  rewrite count_char_app, separator_plain, formatAttr_plain; auto.
Qed.

Lemma line_plain (rt : Runtime) (g : string) (inh : list Attr) (r : slog_Record rt) :
  texts_free ESC rt o g inh r = true ->
  count_char ESC (line rt o g inh r) = O.
Proof.
  intros Hf. apply texts_free_elim in Hf as (Hg & Ht & Hs & Hm & Ha).
  unfold line, line_tail, after_label, timestamp_part, source_part, formatLevel.
  rewrite Hoff, !colorize_off, !count_char_app, Hg, Hm, formatAttrs_plain by exact Ha.
  assert (L : count_char ESC
                (if r_Level r =? LevelDebug then "DBG"
                 else if r_Level r =? LevelInfo then "INF"
                 else if r_Level r =? LevelWarn then "WAR"
                 else if r_Level r =? LevelError then "ERR" else "UNK") = O)
    by (repeat destruct (_ =? _); reflexivity).
  rewrite L.
  destruct (includeTimestamp o && _); destruct (includeSource o && _);
    rewrite ?count_char_app, ?Ht, ?source_text_free; auto.
Qed.
End Plain.

Lemma Handle_total (rt : Runtime) (w : World) (p : nat) (h : PrettyslogHandler)
    (r : slog_Record rt) :
  World_ok w = true -> handlers w !! p = Some h ->
  exists w' err, Handle rt w p r = Some (w', err).
Proof.
  intros Hw Hh. destruct (Enabled h (r_Level r)) eqn:E.
  - destruct (index_last w h (World_ok_lookup w p h Hw Hh)) as (g & Hi & _).
    rewrite (Handle_line rt w p h r g Hh E Hi). eauto.
  - exists w, None. unfold Handle. rewrite Hh. cbn [mbind option_bind]. now rewrite E.
Qed.

(** * The claims *)

(** C2. [Enabled(level)] is true exactly when [level] is at least the
    configured minimum, and for a record below the minimum [Handle] leaves
    the store and the trace of writes as they were (zero bytes reach the
    sink) and returns nil. *)
Theorem C2_level_gate (rt : Runtime) (w : World) (p : nat) (h : PrettyslogHandler)
    (r : slog_Record rt) :
  handlers w !! p = Some h ->
  (forall l, Enabled h l = true <-> level (h_opts h) <= l)
  /\ (r_Level r < level (h_opts h) ->
      Handle rt w p r = Some (w, None) /\ output rt w p r = Some []).
Proof.
  intros Hh. split.
  - intros l. unfold Enabled. rewrite Z.geb_le. reflexivity.
  - intros Hlt.
    assert (E : Enabled h (r_Level r) = false).
    { unfold Enabled. destruct (Z.geb_spec (r_Level r) (level (h_opts h))); [lia | reflexivity]. }
    assert (H : Handle rt w p r = Some (w, None)).
    { unfold Handle. rewrite Hh. cbn [mbind option_bind]. now rewrite E. }
    split; [exact H |]. unfold output. rewrite H. cbn.
    now rewrite drop_all.
Qed.

Lemma C2_level_gate_witness :
  Handle sample_rt plain_World 0 debug_Record = Some (plain_World, None)
  /\ output sample_rt plain_World 0 debug_Record = Some [].
Proof.
  apply (C2_level_gate sample_rt plain_World 0 plain_handler debug_Record).
  - reflexivity.
  - vm_compute. reflexivity.
Defined.

(** C3. [WithAttrs] of no attributes and [WithGroup] of the empty name
    return the pointer they were called on and leave the store untouched,
    so that handling a record through the result is handling it through the
    original. *)
Theorem C3_identity (rt : Runtime) (w : World) (p : nat) (r : slog_Record rt) :
  WithAttrs rt w p [] = Some (w, p)
  /\ WithGroup rt w p "" = Some (w, p)
  /\ (WithAttrs rt w p [] ≫= fun x => Handle rt x.1 x.2 r) = Handle rt w p r
  /\ (WithGroup rt w p "" ≫= fun x => Handle rt x.1 x.2 r) = Handle rt w p r.
Proof. repeat split. Qed.

(** C8. [Handle] makes at most one call of [Write]: none when the level gate
    rejects the record, and then it returns nil; otherwise exactly one, and
    it returns what that call returned, unchanged. *)
Theorem C8_write_error (rt : Runtime) (w : World) (p : nat) (h : PrettyslogHandler)
    (r : slog_Record rt) :
  World_ok w = true -> handlers w !! p = Some h ->
  exists w' err,
    Handle rt w p r = Some (w', err)
    /\ ((Enabled h (r_Level r) = false /\ w' = w /\ err = None)
        \/ (Enabled h (r_Level r) = true
            /\ exists ln, trace w' = trace w ++ [(h_writer h, ln)]
                 /\ err = Write_err rt (h_writer h) (trace w) ln)).
Proof.
  intros Hw Hh. destruct (Enabled h (r_Level r)) eqn:E.
  - destruct (index_last w h (World_ok_lookup w p h Hw Hh)) as (g & Hi & _).
    rewrite (Handle_line rt w p h r g Hh E Hi).
    eexists _, _. split; [reflexivity |]. right. split; [reflexivity |].
    eexists. split; reflexivity.
  - exists w, None. split; [| left; auto].
    unfold Handle. rewrite Hh. cbn [mbind option_bind]. now rewrite E.
Qed.

Lemma C8_write_error_witness :
  exists w' err,
    Handle sample_rt failing_World 0 group_Record = Some (w', err)
    /\ ((Enabled failing_handler (r_Level group_Record) = false
         /\ w' = failing_World /\ err = None)
        \/ (Enabled failing_handler (r_Level group_Record) = true
            /\ exists ln, trace w' = trace failing_World ++ [(h_writer failing_handler, ln)]
                 /\ err = Write_err sample_rt (h_writer failing_handler)
                            (trace failing_World) ln)).
Proof.
  apply (C8_write_error sample_rt failing_World 0 failing_handler group_Record).
  - vm_compute. reflexivity.
  - reflexivity.
Defined.

(** C9. In every store a program can reach, the scope stack of every
    handler is not empty: the index [len(h.groups)-1] is in bounds, and
    [Handle] returns instead of panicking. *)
Theorem C9_scope_stack_nonempty (rt : Runtime) (w : World) (p : nat)
    (h : PrettyslogHandler) (r : slog_Record rt) :
  reachable rt w -> handlers w !! p = Some h ->
  groups_of w h <> []
  /\ (1 <= len (h_groups h))%nat
  /\ is_Some (index (strArrays w) (h_groups h) (Z.of_nat (len (h_groups h)) - 1))
  /\ is_Some (Handle rt w p r).
Proof.
  intros Hr Hh. pose proof (reachable_ok rt w Hr) as Hw.
  pose proof (World_ok_lookup w p h Hw Hh) as Hok.
  destruct (index_last w h Hok) as (g & Hi & Hl).
  repeat split.
  - intros E. rewrite E in Hl. discriminate.
  - unfold handler_ok in Hok. apply andb_true_iff in Hok as [Hok _].
    apply andb_true_iff in Hok as [_ Hok]. now apply Nat.leb_le.
  - rewrite Hi. eauto.
  - destruct (Handle_total rt w p h r Hw Hh) as (w' & err & E). rewrite E. eauto.
Qed.

Lemma C9_scope_stack_nonempty_witness :
  groups_of plain_World plain_handler <> []
  /\ (1 <= len (h_groups plain_handler))%nat
  /\ is_Some (index (strArrays plain_World) (h_groups plain_handler)
                (Z.of_nat (len (h_groups plain_handler)) - 1))
  /\ is_Some (Handle sample_rt plain_World 0 group_Record).
Proof.
  apply (C9_scope_stack_nonempty sample_rt plain_World 0 plain_handler group_Record).
  - apply (reach_New sample_rt empty_World "app" [WithColors false]), reach_empty.
  - reflexivity.
Defined.

(** C4. [WithAttrs] of a non-empty list returns a new handler whose
    inherited attributes are those of the parent followed by the new ones,
    held in a backing array that did not exist before the call; and no call
    of [WithAttrs] or [WithGroup] changes the scope stack or the inherited
    attributes of a handler that existed before it. *)
Theorem C4_derive_copies (rt : Runtime) (w : World) (p : nat) (h : PrettyslogHandler) :
  World_ok w = true -> handlers w !! p = Some h ->
  (forall attrs, attrs <> [] ->
     exists w' h' b,
       WithAttrs rt w p attrs = Some (w', length (handlers w))
       /\ handlers w !! length (handlers w) = None
       /\ handlers w' !! length (handlers w) = Some h'
       /\ attrs_of w' h' = attrs_of w h ++ attrs
       /\ base (h_attrs h') = Some b /\ attrArrays w !! b = None)
  /\ (forall attrs w' p', WithAttrs rt w p attrs = Some (w', p') -> preserved w w')
  /\ (forall name w' p', WithGroup rt w p name = Some (w', p') -> preserved w w').
Proof.
  intros Hw Hh. split; [| split].
  - intros attrs Hne.
    destruct (WithAttrs_spec rt w p h attrs Hh Hne)
      as (w' & h' & E & Hx & _ & _ & _ & _ & _ & b & Hb & Hle & Hl & Hn).
    exists w', h', b. repeat split; auto.
    + apply lookup_ge_None_2. lia.
    + destruct Hx as (_ & _ & -> & _). now apply list_lookup_middle.
    + unfold attrs_of at 1. now destruct (slice_ok_fresh _ _ _ _ Hb Hl Hn) as [_ ->].
    + now apply lookup_ge_None_2.
  - intros attrs w' p' E. exact (proj2 (WithAttrs_ok rt w p attrs w' p' Hw E)).
  - intros name w' p' E. exact (proj2 (WithGroup_ok rt w p name w' p' Hw E)).
Qed.

Lemma C4_derive_copies_witness :
  exists w' h' b,
    WithAttrs sample_rt plain_World 0 [mkAttr "session_id" (StringValue "abc123")]
    = Some (w', length (handlers plain_World))
    /\ handlers plain_World !! length (handlers plain_World) = None
    /\ handlers w' !! length (handlers plain_World) = Some h'
    /\ attrs_of w' h'
       = attrs_of plain_World plain_handler ++ [mkAttr "session_id" (StringValue "abc123")]
    /\ base (h_attrs h') = Some b /\ attrArrays plain_World !! b = None.
Proof.
  apply (C4_derive_copies sample_rt plain_World 0 plain_handler).
  - vm_compute. reflexivity.
  - reflexivity.
  - discriminate.
Defined.

(** C5. The line of a record starts with the last entry of the scope stack
    of the handler, alone, and a space; what follows does not depend on the
    stack.  After [WithGroup(name)] the line starts with [name] and goes on
    exactly as the parent's line does, and the key of a scalar attribute of
    the record is written without any prefix. *)
Theorem C5_scope_label (rt : Runtime) (w : World) (p : nat) (h : PrettyslogHandler)
    (r : slog_Record rt) (name : string) :
  World_ok w = true -> handlers w !! p = Some h -> Enabled h (r_Level r) = true ->
  name <> "" ->
  exists label w' h',
    last (groups_of w h) = Some label
    /\ output rt w p r
       = Some [(h_writer h, label +:+ " " +:+ line_tail rt (h_opts h) (attrs_of w h) r)]
    /\ WithGroup rt w p name = Some (w', length (handlers w))
    /\ handlers w' !! length (handlers w) = Some h'
    /\ groups_of w' h' = groups_of w h ++ [name]
    /\ output rt w' (length (handlers w)) r
       = Some [(h_writer h, name +:+ " " +:+ line_tail rt (h_opts h) (attrs_of w h) r)]
    /\ forall k v lc, isGroup v = false ->
         formatAttrs (h_opts h') [mkAttr k v] lc
         = separator (h_opts h') +:+ colorize k (colors (h_opts h')) lc
           +:+ colorize "=" (colors (h_opts h')) FgGray
           +:+ colorize (Sprint_v v) (colors (h_opts h')) "".
Proof.
  intros Hw Hh He Hne.
  destruct (output_enabled rt w p h r Hw Hh He) as (g & Hl & Ho).
  destruct (WithGroup_spec rt w p h name Hh Hne)
    as (w' & h' & E & Hx & Ha & Hat & Hop & Hwr & _ & b & Hb & _ & Hlk & Hn).
  destruct (WithGroup_ok rt w p name w' _ Hw E) as [Hw' _].
  assert (Hh' : handlers w' !! length (handlers w) = Some h').
  { destruct Hx as (_ & _ & -> & _). now apply list_lookup_middle. }
  assert (Hg' : groups_of w' h' = groups_of w h ++ [name]).
  { unfold groups_of at 1. now destruct (slice_ok_fresh _ _ _ _ Hb Hlk Hn) as [_ ->]. }
  assert (Ha' : attrs_of w' h' = attrs_of w h).
  { unfold attrs_of. now rewrite Ha, Hat. }
  assert (He' : Enabled h' (r_Level r) = true) by (unfold Enabled in *; now rewrite Hop).
  destruct (output_enabled rt w' _ h' r Hw' Hh' He') as (g' & Hl' & Ho').
  rewrite Hg', last_snoc in Hl'. injection Hl' as <-.
  exists g, w', h'. repeat split; auto.
  - rewrite Ho. unfold line. now rewrite colorize_plain.
  - rewrite Ho', Hwr, Hop, Ha'. unfold line. now rewrite colorize_plain.
  - intros k v lc Hv. rewrite formatAttrs_text. cbn [concat_map fold_right].
    rewrite formatAttr_scalar by exact Hv. unfold dotted.
    cbn [String.eqb]. now rewrite append_nil_l, append_nil_r.
Qed.

Lemma C5_scope_label_witness :
  exists label w' h',
    last (groups_of plain_World plain_handler) = Some label
    /\ output sample_rt plain_World 0 group_Record
       = Some [(h_writer plain_handler,
                label +:+ " " +:+ line_tail sample_rt (h_opts plain_handler)
                                    (attrs_of plain_World plain_handler) group_Record)]
    /\ WithGroup sample_rt plain_World 0 "db" = Some (w', length (handlers plain_World))
    /\ handlers w' !! length (handlers plain_World) = Some h'
    /\ groups_of w' h' = groups_of plain_World plain_handler ++ ["db"]
    /\ output sample_rt w' (length (handlers plain_World)) group_Record
       = Some [(h_writer plain_handler,
                "db" +:+ " " +:+ line_tail sample_rt (h_opts plain_handler)
                                   (attrs_of plain_World plain_handler) group_Record)]
    /\ forall k v lc, isGroup v = false ->
         formatAttrs (h_opts h') [mkAttr k v] lc
         = separator (h_opts h') +:+ colorize k (colors (h_opts h')) lc
           +:+ colorize "=" (colors (h_opts h')) FgGray
           +:+ colorize (Sprint_v v) (colors (h_opts h')) "".
Proof.
  apply (C5_scope_label sample_rt plain_World 0 plain_handler group_Record "db").
  - vm_compute. reflexivity.
  - reflexivity.
  - reflexivity.
  - discriminate.
Defined.

(** C7, as amended.  [colorize] returns its text when colours are disabled
    or the colour code is empty, and the code, the text and the reset code
    otherwise.  With colours disabled, a line made of texts (scope label,
    formatted time, file of the call site, message, keys, printed values)
    that hold no escape character holds no escape character. *)
Theorem C7_no_added_escapes (rt : Runtime) (w : World) (p : nat)
    (h : PrettyslogHandler) (r : slog_Record rt) :
  (forall text code, colorize text false code = text)
  /\ (forall text enable, colorize text enable "" = text)
  /\ (forall text code, code <> "" ->
        colorize text true code = code +:+ text +:+ ColorReset)
  /\ (World_ok w = true -> handlers w !! p = Some h -> colors (h_opts h) = false ->
      texts_free ESC rt (h_opts h) (default "" (last (groups_of w h)))
        (attrs_of w h) r = true ->
      exists out, output rt w p r = Some out
                  /\ Forall (fun e => count_char ESC e.2 = O) out).
Proof.
  split; [| split; [| split]].
  - reflexivity.
  - apply colorize_plain.
  - intros text code Hne. unfold colorize.
    destruct (String.eqb_spec code ""); [congruence | reflexivity].
  - intros Hw Hh Hoff Hf. destruct (Enabled h (r_Level r)) eqn:He.
    + destruct (output_enabled rt w p h r Hw Hh He) as (g & Hl & Ho).
      rewrite Hl in Hf. cbn [default] in Hf.
      eexists. split; [exact Ho |]. constructor; [| constructor].
      cbn [snd]. now apply line_plain.
    + exists []. split; [| constructor].
      unfold output, Handle. rewrite Hh. cbn [mbind option_bind]. rewrite He.
      cbn. now rewrite drop_all.
Qed.

Lemma C7_no_added_escapes_witness :
  exists out, output sample_rt plain_World 0 group_Record = Some out
              /\ Forall (fun e => count_char ESC e.2 = O) out.
Proof.
  apply (C7_no_added_escapes sample_rt plain_World 0 plain_handler group_Record).
  - vm_compute. reflexivity.
  - reflexivity.
  - reflexivity.
  - vm_compute. reflexivity.
Defined.

(** C7, as stated, fails: colours are disabled, the message of the
    record holds a colour code, and the line holds its escape character. *)
Lemma C7_counterexample :
  handlers plain_World !! 0%nat = Some plain_handler
  /\ colors (h_opts plain_handler) = false
  /\ output sample_rt plain_World 0 escape_Record = Some [(os_Stderr, escape_line)]
  /\ count_char ESC escape_line = 1%nat.
Proof. repeat split. Qed.

(** C10. Every attribute node, group or scalar, has one separator written
    in front of it.  A group with no child leaves its separator with nothing
    after it; a group with children writes, after the separator it got, one
    separator in front of each child; and the line [Handle] writes holds as
    many separators as the attributes have nodes (the separators are counted
    in a line whose texts hold no [;] of their own). *)
Theorem C10_group_separators (rt : Runtime) (w : World) (p : nat)
    (h : PrettyslogHandler) (r : slog_Record rt) :
  (forall k l1 l2 lc,
     formatAttrs (h_opts h) (l1 ++ mkAttr k (GroupValue []) :: l2) lc
     = formatAttrs (h_opts h) l1 lc +:+ separator (h_opts h)
       +:+ formatAttrs (h_opts h) l2 lc)
  /\ (forall k g l1 l2 lc,
        formatAttrs (h_opts h) (l1 ++ mkAttr k (GroupValue g) :: l2) lc
        = formatAttrs (h_opts h) l1 lc +:+ separator (h_opts h)
          +:+ concat_map (fun a => separator (h_opts h)
                                   +:+ formatAttr (h_opts h) "" a lc k) g
          +:+ formatAttrs (h_opts h) l2 lc)
  /\ (forall k g, nodes (mkAttr k (GroupValue g)) = S (sum_list_with nodes g))
  /\ (World_ok w = true -> handlers w !! p = Some h -> Enabled h (r_Level r) = true ->
      exists label ln,
        output rt w p r = Some [(h_writer h, ln)]
        /\ ln = label +:+ " " +:+ after_label rt (h_opts h) r
                +:+ formatAttrs (h_opts h) (attrs_of w h ++ r_attrs r)
                      (attrColor (h_opts h) (r_Level r))
                +:+ String LF ""
        /\ (texts_free semicolon rt (h_opts h) (default "" (last (groups_of w h)))
              (attrs_of w h) r = true ->
            count_sub (separator (h_opts h)) ln
            = sum_list_with nodes (attrs_of w h ++ r_attrs r))).
Proof.
  assert (G : forall k g l1 l2 lc,
            formatAttrs (h_opts h) (l1 ++ mkAttr k (GroupValue g) :: l2) lc
            = formatAttrs (h_opts h) l1 lc +:+ separator (h_opts h)
              +:+ concat_map (fun a => separator (h_opts h)
                                       +:+ formatAttr (h_opts h) "" a lc k) g
              +:+ formatAttrs (h_opts h) l2 lc).
  { intros k g l1 l2 lc. rewrite formatAttrs_app.
    change (mkAttr k (GroupValue g) :: l2) with ([mkAttr k (GroupValue g)] ++ l2).
    rewrite formatAttrs_app, (formatAttrs_text _ [_]). cbn [concat_map fold_right].
    rewrite formatAttr_group, append_nil_r, !append_assoc. reflexivity. }
  split; [| split; [| split]].
  - intros k l1 l2 lc. rewrite G. cbn [concat_map fold_right].
    now rewrite append_nil_l.
  - exact G.
  - reflexivity.
  - intros Hw Hh He.
    destruct (output_enabled rt w p h r Hw Hh He) as (g & Hl & Ho).
    exists g, (line rt (h_opts h) g (attrs_of w h) r). split; [exact Ho |]. split.
    + unfold line, line_tail. now rewrite colorize_plain.
    + intros Hf. rewrite Hl in Hf. cbn [default] in Hf.
      apply line_seps; [exact Hf |].
      apply (handler_ok_color w). exact (World_ok_lookup w p h Hw Hh).
Qed.

Lemma C10_group_separators_witness :
  exists ln,
    output sample_rt plain_World 0 group_Record = Some [(h_writer plain_handler, ln)]
    /\ count_sub (separator (h_opts plain_handler)) ln
       = sum_list_with nodes (attrs_of plain_World plain_handler ++ r_attrs group_Record).
Proof.
  destruct (proj2 (proj2 (proj2
    (C10_group_separators sample_rt plain_World 0 plain_handler group_Record))))
    as (label & ln & Ho & Hln & Hc).
  - vm_compute. reflexivity.
  - reflexivity.
  - reflexivity.
  - exists ln. split; [exact Ho |]. apply Hc. vm_compute. reflexivity.
Defined.

(** C1 fails on the code.  For
    [logger.Info("msg", slog.Group("g", slog.String("a", "1")))] through a
    handler without colours, the line holds two separators while the
    attributes have one scalar leaf: the group gets a separator of its own. *)
Theorem C1_separators_exceed_leaves :
  output sample_rt plain_World 0 group_Record = Some [(os_Stderr, group_line)]
  /\ count_sub (separator (h_opts plain_handler)) group_line = 2%nat
  /\ sum_list_with leaves (attrs_of plain_World plain_handler ++ r_attrs group_Record)
     = 1%nat.
Proof. repeat split. Qed.

(** * Further properties of the code *)

(** ** The options and the constructor *)

Lemma default_last_cons {A : Type} (d v : A) (l : list A) :
  default d (last (v :: l)) = default v (last l).
Proof.
  revert d v. induction l as [|x l IH]; intros d v; [reflexivity |].
  rewrite last_cons_cons. now rewrite (IH d x), (IH v x).
Qed.

Lemma last_set_cons {A : Type} (f : Option -> option A) (opt : Option)
    (opts : list Option) (d : A) :
  last_set f (opt :: opts) d = last_set f opts (default d (f opt)).
Proof.
  unfold last_set. cbn [omap list_omap]. destruct (f opt) as [v|]; [| reflexivity].
  apply default_last_cons.
Qed.

Lemma options_fold (opts : list Option) (o : options) :
  fold_left (fun o opt => apply_Option opt o) opts o
  = {| includeTimestamp := last_set set_timestamp opts (includeTimestamp o);
       includeSource := last_set set_source opts (includeSource o);
       colors := last_set set_colors opts (colors o);
       levelColors := levelColors o;
       timestampFormat := last_set set_format opts (timestampFormat o);
       level := last_set set_level opts (level o);
       writer := last_set set_writer opts (writer o) |}.
Proof.
  revert o. induction opts as [|opt opts IH]; intros o.
  - now destruct o.
  - cbn [fold_left]. rewrite IH, !last_set_cons. now destruct opt.
Qed.

(** X1. [NewPrettyslogHandler] applies its options in order: each field of
    the configuration holds the value of the last option given for it, and
    the default when there is none; the colour table is always the default
    one, and the handler writes to the configured writer. *)
Theorem X1_last_option_wins (w : World) (group : string) (opts : list Option) :
  handlers (NewPrettyslogHandler w group opts).1 !! (NewPrettyslogHandler w group opts).2
  = Some {| h_mu := mutexes w;
            h_writer := last_set set_writer opts os_Stderr;
            h_groups := {| base := Some (length (strArrays w)); len := 1; cap := 1 |};
            h_opts :=
              {| includeTimestamp := last_set set_timestamp opts true;
                 includeSource := last_set set_source opts false;
                 colors := last_set set_colors opts true;
                 levelColors := levelColors defaultOptions;
                 timestampFormat := last_set set_format opts "[15:04:05.000]";
                 level := last_set set_level opts LevelInfo;
                 writer := last_set set_writer opts os_Stderr |};
            h_attrs := nil_slice |}.
Proof.
  unfold NewPrettyslogHandler. cbn [fst snd handlers].
  rewrite options_fold. cbn [writer].
  now apply list_lookup_middle.
Qed.

Lemma New_extends (w : World) (group : string) (opts : list Option) :
  exists h',
    handlers (NewPrettyslogHandler w group opts).1 !! length (handlers w) = Some h'
    /\ extends w (NewPrettyslogHandler w group opts).1 h'
    /\ groups_of (NewPrettyslogHandler w group opts).1 h' = [group]
    /\ h_attrs h' = nil_slice
    /\ h_mu h' = mutexes w
    /\ h_writer h' = writer (h_opts h').
Proof.
  unfold NewPrettyslogHandler. cbn [fst]. eexists. split.
  - cbn [handlers]. now apply list_lookup_middle.
  - split; [| split; [| repeat split]].
    + repeat split; cbn; eauto. exists []. now rewrite app_nil_r.
    + unfold groups_of. cbn [strArrays h_groups].
      now destruct (slice_ok_fresh (strArrays w ++ [[group]])
                      {| base := Some (length (strArrays w)); len := 1; cap := 1 |}
                      (length (strArrays w)) [group] eq_refl
                      (list_lookup_middle _ [] _ _ eq_refl) eq_refl) as [_ ->].
Qed.

(** X2. [NewPrettyslogHandler(group, ...)] returns a pointer that was not in
    use; the new handler has the one-entry scope stack [[group]] and no
    inherited attribute; the handlers that existed keep their scope stack
    and attributes; and every line the new handler writes starts with
    [group] and a space, also when [group] is empty. *)
Theorem X2_root_handler (rt : Runtime) (w : World) (group : string)
    (opts : list Option) (r : slog_Record rt) :
  World_ok w = true ->
  exists h',
    handlers w !! (NewPrettyslogHandler w group opts).2 = None
    /\ handlers (NewPrettyslogHandler w group opts).1
         !! (NewPrettyslogHandler w group opts).2 = Some h'
    /\ groups_of (NewPrettyslogHandler w group opts).1 h' = [group]
    /\ attrs_of (NewPrettyslogHandler w group opts).1 h' = []
    /\ preserved w (NewPrettyslogHandler w group opts).1
    /\ World_ok (NewPrettyslogHandler w group opts).1 = true
    /\ (Enabled h' (r_Level r) = true ->
        output rt (NewPrettyslogHandler w group opts).1
          (NewPrettyslogHandler w group opts).2 r
        = Some [(h_writer h', group +:+ " " +:+ line_tail rt (h_opts h') [] r)]).
Proof.
  intros Hw. destruct (New_extends w group opts) as (h' & Hh' & Hx & Hg & Ha & _).
  pose proof (New_ok w group opts Hw) as Hw'.
  assert (Hat : attrs_of (NewPrettyslogHandler w group opts).1 h' = [])
    by (unfold attrs_of; now rewrite Ha).
  exists h'. split; [| split; [| split; [| split; [| split; [| split]]]]]; auto.
  - apply lookup_ge_None_2. cbn. lia.
  - now apply (extends_preserved w _ h').
  - intros He.
    destruct (output_enabled rt _ _ h' r Hw' Hh' He) as (g & Hl & Ho).
    rewrite Hg in Hl. injection Hl as <-.
    change (NewPrettyslogHandler w group opts).2 with (length (handlers w)).
    rewrite Ho, Hat. unfold line. now rewrite colorize_plain.
Qed.

Lemma X2_root_handler_witness :
  exists h',
    handlers empty_World !! (NewPrettyslogHandler empty_World "" [WithColors false]).2 = None
    /\ handlers (NewPrettyslogHandler empty_World "" [WithColors false]).1
         !! (NewPrettyslogHandler empty_World "" [WithColors false]).2 = Some h'
    /\ groups_of (NewPrettyslogHandler empty_World "" [WithColors false]).1 h' = [""]
    /\ attrs_of (NewPrettyslogHandler empty_World "" [WithColors false]).1 h' = []
    /\ preserved empty_World (NewPrettyslogHandler empty_World "" [WithColors false]).1
    /\ World_ok (NewPrettyslogHandler empty_World "" [WithColors false]).1 = true
    /\ (Enabled h' (r_Level group_Record) = true ->
        output sample_rt (NewPrettyslogHandler empty_World "" [WithColors false]).1
          (NewPrettyslogHandler empty_World "" [WithColors false]).2 group_Record
        = Some [(h_writer h',
                 "" +:+ " " +:+ line_tail sample_rt (h_opts h') [] group_Record)]).
Proof.
  apply (X2_root_handler sample_rt empty_World "" [WithColors false] group_Record).
  reflexivity.
Defined.

(** X3. The level tag: [DBG], [INF], [WAR] and [ERR] in magenta, blue,
    yellow and red for the four standard levels, and [UNK] in white for
    every other level (the levels in between included); no level is an
    error. *)
Theorem X3_level_tags (o : options) (l : Level) :
  levelColors o = levelColors defaultOptions ->
  formatLevel o LevelDebug = colorize "DBG" (colors o) FgMagenta
  /\ formatLevel o LevelInfo = colorize "INF" (colors o) FgBlue
  /\ formatLevel o LevelWarn = colorize "WAR" (colors o) FgYellow
  /\ formatLevel o LevelError = colorize "ERR" (colors o) FgRed
  /\ (l <> LevelDebug -> l <> LevelInfo -> l <> LevelWarn -> l <> LevelError ->
      formatLevel o l = colorize "UNK" (colors o) FgWhite).
Proof.
  intros E. unfold formatLevel, levelColor_of. rewrite E.
  repeat split.
  intros H1 H2 H3 H4.
  apply Z.eqb_neq in H1 as E1. apply Z.eqb_neq in H2 as E2.
  apply Z.eqb_neq in H3 as E3. apply Z.eqb_neq in H4 as E4.
  rewrite E1, E2, E3, E4.
  unfold defaultOptions. cbn [levelColors].
  rewrite !lookup_insert_ne, lookup_empty by congruence. reflexivity.
Qed.

Lemma X3_level_tags_witness :
  formatLevel defaultOptions LevelDebug = colorize "DBG" true FgMagenta
  /\ formatLevel defaultOptions LevelInfo = colorize "INF" true FgBlue
  /\ formatLevel defaultOptions LevelWarn = colorize "WAR" true FgYellow
  /\ formatLevel defaultOptions LevelError = colorize "ERR" true FgRed
  /\ (2 <> LevelDebug -> 2 <> LevelInfo -> 2 <> LevelWarn -> 2 <> LevelError ->
      formatLevel defaultOptions 2 = colorize "UNK" true FgWhite).
Proof.
  apply (X3_level_tags defaultOptions 2). reflexivity.
Defined.

(** ** Derived handlers *)

Lemma WithAttrs_cases (rt : Runtime) (w : World) (p : nat) (h : PrettyslogHandler)
    (attrs : list Attr) (w' : World) (p' : nat) (h' : PrettyslogHandler) :
  handlers w !! p = Some h ->
  WithAttrs rt w p attrs = Some (w', p') -> handlers w' !! p' = Some h' ->
  (attrs = [] /\ w' = w /\ p' = p /\ h' = h)
  \/ (attrs <> [] /\ p' = length (handlers w) /\ extends w w' h'
      /\ h_groups h' = h_groups h /\ h_opts h' = h_opts h
      /\ h_writer h' = h_writer h /\ h_mu h' = h_mu h
      /\ attrs_of w' h' = attrs_of w h ++ attrs
      /\ strArrays w' = strArrays w).
Proof.
  intros Hh E Hh'. destruct attrs as [|a attrs].
  - left. injection E as <- <-. rewrite Hh in Hh'. injection Hh' as <-. auto.
  - right. split; [discriminate |].
    destruct (WithAttrs_spec rt w p h (a :: attrs) Hh ltac:(discriminate))
      as (w1 & h1 & E1 & Hx & Hs & Hg & Ho & Hwr & Hmu & b & Hb & _ & Hl & Hn).
    rewrite E1 in E. injection E as <- <-.
    assert (h1 = h') as <-.
    { destruct Hx as (_ & _ & X & _). rewrite X in Hh'.
      rewrite (list_lookup_middle _ [] h1 _ eq_refl) in Hh'. congruence. }
    repeat split; auto; try apply Hx.
    unfold attrs_of at 1. now destruct (slice_ok_fresh _ _ _ _ Hb Hl Hn) as [_ ->].
Qed.

Lemma WithGroup_cases (rt : Runtime) (w : World) (p : nat) (h : PrettyslogHandler)
    (name : string) (w' : World) (p' : nat) (h' : PrettyslogHandler) :
  handlers w !! p = Some h ->
  WithGroup rt w p name = Some (w', p') -> handlers w' !! p' = Some h' ->
  (name = "" /\ w' = w /\ p' = p /\ h' = h)
  \/ (name <> "" /\ p' = length (handlers w) /\ extends w w' h'
      /\ h_attrs h' = h_attrs h /\ h_opts h' = h_opts h
      /\ h_writer h' = h_writer h /\ h_mu h' = h_mu h
      /\ groups_of w' h' = groups_of w h ++ [name]
      /\ attrArrays w' = attrArrays w).
Proof.
  intros Hh E Hh'. destruct (String.eqb_spec name "") as [-> | Hne].
  - left. injection E as <- <-. rewrite Hh in Hh'. injection Hh' as <-. auto.
  - right. split; [exact Hne |].
    destruct (WithGroup_spec rt w p h name Hh Hne)
      as (w1 & h1 & E1 & Hx & Hs & Ha & Ho & Hwr & Hmu & b & Hb & _ & Hl & Hn).
    rewrite E1 in E. injection E as <- <-.
    assert (h1 = h') as <-.
    { destruct Hx as (_ & _ & X & _). rewrite X in Hh'.
      rewrite (list_lookup_middle _ [] h1 _ eq_refl) in Hh'. congruence. }
    repeat split; auto; try apply Hx.
    unfold groups_of at 1. now destruct (slice_ok_fresh _ _ _ _ Hb Hl Hn) as [_ ->].
Qed.

(** X4. A handler derived by [WithAttrs] or [WithGroup] has the mutex, the
    writer and the configuration of the handler it was derived from: it
    writes to the same sink under the same lock and lets the same levels
    through.  [WithAttrs] keeps the scope stack and [WithGroup] keeps the
    inherited attributes. *)
Theorem X4_derived_shares (rt : Runtime) (w : World) (p : nat) (h : PrettyslogHandler)
    (w' : World) (p' : nat) (h' : PrettyslogHandler) :
  handlers w !! p = Some h -> handlers w' !! p' = Some h' ->
  (forall attrs, WithAttrs rt w p attrs = Some (w', p') ->
     h_mu h' = h_mu h /\ h_writer h' = h_writer h /\ h_opts h' = h_opts h
     /\ h_groups h' = h_groups h /\ forall l, Enabled h' l = Enabled h l)
  /\ (forall name, WithGroup rt w p name = Some (w', p') ->
        h_mu h' = h_mu h /\ h_writer h' = h_writer h /\ h_opts h' = h_opts h
        /\ h_attrs h' = h_attrs h /\ forall l, Enabled h' l = Enabled h l).
Proof.
  intros Hh Hh'. split.
  - intros attrs E.
    destruct (WithAttrs_cases rt w p h attrs w' p' h' Hh E Hh')
      as [(_ & _ & _ & ->) | (_ & _ & _ & Hg & Ho & Hwr & Hmu & _)]; [auto |].
    repeat split; auto. intros l. unfold Enabled. now rewrite Ho.
  - intros name E.
    destruct (WithGroup_cases rt w p h name w' p' h' Hh E Hh')
      as [(_ & _ & _ & ->) | (_ & _ & _ & Ha & Ho & Hwr & Hmu & _)]; [auto |].
    repeat split; auto. intros l. unfold Enabled. now rewrite Ho.
Qed.

Lemma X4_derived_shares_witness :
  h_mu (default plain_handler
          (handlers (default (plain_World, 0%nat)
                       (WithGroup sample_rt plain_World 0 "db")).1 !! 1%nat))
  = h_mu plain_handler.
Proof.
  refine (proj1 (proj2 (X4_derived_shares sample_rt plain_World 0 plain_handler
            (default (plain_World, 0%nat) (WithGroup sample_rt plain_World 0 "db")).1
            1 _ _ _) "db" _)).
  - reflexivity.
  - vm_compute. reflexivity.
  - vm_compute. reflexivity.
Defined.

(** X5. Only [Handle] writes.  Building or deriving a handler adds nothing
    to the trace of writes; [Handle] changes nothing but that trace, to
    which it adds at most one write ([err] is the result of that write). *)
Theorem X5_only_Handle_writes (rt : Runtime) (w : World) (p : nat) :
  (forall group opts, trace (NewPrettyslogHandler w group opts).1 = trace w)
  /\ (forall attrs w' p', WithAttrs rt w p attrs = Some (w', p') -> trace w' = trace w)
  /\ (forall name w' p', WithGroup rt w p name = Some (w', p') -> trace w' = trace w)
  /\ (forall r w' err, Handle rt w p r = Some (w', err) ->
        strArrays w' = strArrays w /\ attrArrays w' = attrArrays w
        /\ handlers w' = handlers w /\ mutexes w' = mutexes w
        /\ exists out, trace w' = trace w ++ out /\ (length out <= 1)%nat
             /\ (out = [] -> err = None)).
Proof.
  split; [reflexivity | split; [| split]].
  - intros attrs w' p' E. unfold WithAttrs in E.
    destruct attrs; [now injection E as <- _ |].
    destruct (handlers w !! p); [| discriminate]. cbn [mbind option_bind] in E.
    destruct (append _ _ _ _) as [hp1 s1]. destruct (append _ _ _ _) as [hp2 s2].
    now injection E as <- _.
  - intros name w' p' E. unfold WithGroup in E.
    destruct (String.eqb name ""); [now injection E as <- _ |].
    destruct (handlers w !! p); [| discriminate]. cbn [mbind option_bind] in E.
    destruct (append _ _ _ _) as [hp1 s1]. destruct (append _ _ _ _) as [hp2 s2].
    now injection E as <- _.
  - intros r w' err E. unfold Handle in E.
    destruct (handlers w !! p) as [h|]; [| discriminate].
    cbn [mbind option_bind] in E. destruct (negb _).
    + injection E as <- <-. repeat split. exists []. rewrite app_nil_r. auto.
    + destruct (index _ _ _); [| discriminate]. cbn [mbind option_bind] in E.
      injection E as <- <-. repeat split. eexists [_]. cbn. repeat split; [lia |].
      discriminate.
Qed.

Lemma X5_only_Handle_writes_witness :
  trace (default (plain_World, 0%nat)
           (WithGroup sample_rt plain_World 0 "db")).1 = trace plain_World.
Proof.
  refine (proj1 (proj2 (proj2 (X5_only_Handle_writes sample_rt plain_World 0)))
            "db" _ 1%nat _).
  vm_compute. reflexivity.
Defined.

(** ** Invariants of the reachable stores *)

Lemma WithAttrs_handlers (rt : Runtime) (w : World) (p : nat) (attrs : list Attr)
    (w' : World) (p' : nat) :
  WithAttrs rt w p attrs = Some (w', p') ->
  w' = w
  \/ exists h s, handlers w !! p = Some h /\ mutexes w' = mutexes w
       /\ handlers w' = handlers w ++
            [{| h_mu := h_mu h; h_writer := h_writer h; h_groups := h_groups h;
                h_opts := h_opts h; h_attrs := s |}].
Proof.
  unfold WithAttrs. intros E. destruct attrs; [left; now injection E as <- _ |].
  destruct (handlers w !! p) as [h|]; [| discriminate]. cbn [mbind option_bind] in E.
  destruct (append _ _ _ _) as [hp1 s1]. destruct (append _ _ _ _) as [hp2 s2].
  injection E as <- _. right. exists h, s2. auto.
Qed.

Lemma WithGroup_handlers (rt : Runtime) (w : World) (p : nat) (name : string)
    (w' : World) (p' : nat) :
  WithGroup rt w p name = Some (w', p') ->
  w' = w
  \/ exists h s, handlers w !! p = Some h /\ mutexes w' = mutexes w
       /\ handlers w' = handlers w ++
            [{| h_mu := h_mu h; h_writer := h_writer h; h_groups := s;
                h_opts := h_opts h; h_attrs := h_attrs h |}].
Proof.
  unfold WithGroup. intros E. destruct (String.eqb name ""); [left; now injection E as <- _ |].
  destruct (handlers w !! p) as [h|]; [| discriminate]. cbn [mbind option_bind] in E.
  destruct (append _ _ _ _) as [hp1 s1]. destruct (append _ _ _ _) as [hp2 s2].
  injection E as <- _. right. exists h, s2. auto.
Qed.

Lemma lookup_snoc_cases {A : Type} (l : list A) (x y : A) (i : nat) :
  (l ++ [x]) !! i = Some y -> l !! i = Some y \/ y = x.
Proof.
  intros H. apply lookup_app_Some in H as [H | [_ H]]; [now left |].
  right. destruct (i - length l)%nat; cbn in H; [congruence | discriminate].
Qed.

Lemma Handle_mutexes (rt : Runtime) (w : World) (p : nat) (r : slog_Record rt)
    (w' : World) (err : option (error rt)) :
  Handle rt w p r = Some (w', err) -> mutexes w' = mutexes w.
Proof.
  unfold Handle. destruct (handlers w !! p) as [h|]; [| discriminate].
  cbn [mbind option_bind]. destruct (negb _).
  - now intros [= <- _].
  - destruct (index _ _ _); [| discriminate]. cbn [mbind option_bind].
    now intros [= <- _].
Qed.

Lemma reachable_writer (rt : Runtime) (w : World) (p : nat) (h : PrettyslogHandler) :
  reachable rt w -> handlers w !! p = Some h -> h_writer h = writer (h_opts h).
Proof.
  intros Hr Hh.
  revert p h Hh.
  induction Hr as [| w group opts _ IH | w q attrs w' q' _ IH E
                  | w q name w' q' _ IH E | w q r w' err _ IH E]; intros p h Hh.
  + discriminate.
  + unfold NewPrettyslogHandler in Hh. cbn [fst handlers] in Hh.
    apply lookup_snoc_cases in Hh as [Hh | ->]; [eauto | reflexivity].
  + destruct (WithAttrs_handlers rt w q attrs w' q' E) as [-> | (h0 & s & H0 & _ & X)];
      [eauto |].
    rewrite X in Hh. apply lookup_snoc_cases in Hh as [Hh | ->]; [eauto |].
    cbn. eauto.
  + destruct (WithGroup_handlers rt w q name w' q' E) as [-> | (h0 & s & H0 & _ & X)];
      [eauto |].
    rewrite X in Hh. apply lookup_snoc_cases in Hh as [Hh | ->]; [eauto |].
    cbn. eauto.
  + destruct (Handle_frame rt w q r w' err E) as (_ & _ & X). rewrite X in Hh. eauto.
Qed.

Lemma reachable_mutex (rt : Runtime) (w : World) (p : nat) (h : PrettyslogHandler) :
  reachable rt w -> handlers w !! p = Some h -> (h_mu h < mutexes w)%nat.
Proof.
  intros Hr Hh.
  revert p h Hh.
  induction Hr as [| w group opts _ IH | w q attrs w' q' _ IH E
                  | w q name w' q' _ IH E | w q r w' err _ IH E]; intros p h Hh.
  + discriminate.
  + unfold NewPrettyslogHandler in *. cbn [fst handlers mutexes] in *.
    apply lookup_snoc_cases in Hh as [Hh | ->]; [apply IH in Hh; lia | cbn; lia].
  + destruct (WithAttrs_handlers rt w q attrs w' q' E) as [-> | (h0 & s & H0 & M & X)];
      [eauto |].
    rewrite M. rewrite X in Hh. apply lookup_snoc_cases in Hh as [Hh | ->]; [eauto |].
    cbn. eauto.
  + destruct (WithGroup_handlers rt w q name w' q' E) as [-> | (h0 & s & H0 & M & X)];
      [eauto |].
    rewrite M. rewrite X in Hh. apply lookup_snoc_cases in Hh as [Hh | ->]; [eauto |].
    cbn. eauto.
  + destruct (Handle_frame rt w q r w' err E) as (_ & _ & X).
    rewrite (Handle_mutexes rt w q r w' err E). rewrite X in Hh. eauto.
Qed.

(** X6. In every store a program can reach, the writer a handler writes to
    is the writer of its configuration, its mutex is one that was allocated
    by a constructor, and its colour table is the default one. *)
Theorem X6_reachable_handlers (rt : Runtime) (w : World) (p : nat)
    (h : PrettyslogHandler) :
  reachable rt w -> handlers w !! p = Some h ->
  h_writer h = writer (h_opts h)
  /\ (h_mu h < mutexes w)%nat
  /\ levelColors (h_opts h) = levelColors defaultOptions.
Proof.
  intros Hr Hh. split; [| split].
  - exact (reachable_writer rt w p h Hr Hh).
  - exact (reachable_mutex rt w p h Hr Hh).
  - pose proof (World_ok_lookup w p h (reachable_ok rt w Hr) Hh) as Hok.
    unfold handler_ok in Hok. apply andb_true_iff in Hok as [_ Hok].
    now apply bool_decide_eq_true in Hok.
Qed.

Lemma X6_reachable_handlers_witness :
  h_writer plain_handler = writer (h_opts plain_handler)
  /\ (h_mu plain_handler < mutexes plain_World)%nat
  /\ levelColors (h_opts plain_handler) = levelColors defaultOptions.
Proof.
  apply (X6_reachable_handlers sample_rt plain_World 0 plain_handler).
  - apply (reach_New sample_rt empty_World "app" [WithColors false]), reach_empty.
  - reflexivity.
Defined.

(** ** What a line depends on *)

Lemma output_disabled (rt : Runtime) (w : World) (p : nat) (h : PrettyslogHandler)
    (r : slog_Record rt) :
  handlers w !! p = Some h -> Enabled h (r_Level r) = false ->
  output rt w p r = Some [].
Proof.
  intros Hh He. unfold output, Handle. rewrite Hh. cbn [mbind option_bind].
  rewrite He. cbn. now rewrite drop_all.
Qed.

(** The output of [Handle] is decided by the configuration, the writer, the
    last entry of the scope stack and the inherited attributes. *)
Lemma output_determined (rt : Runtime) (w1 w2 : World) (p1 p2 : nat)
    (h1 h2 : PrettyslogHandler) (r : slog_Record rt) :
  World_ok w1 = true -> World_ok w2 = true ->
  handlers w1 !! p1 = Some h1 -> handlers w2 !! p2 = Some h2 ->
  h_opts h1 = h_opts h2 -> h_writer h1 = h_writer h2 ->
  last (groups_of w1 h1) = last (groups_of w2 h2) ->
  attrs_of w1 h1 = attrs_of w2 h2 ->
  output rt w1 p1 r = output rt w2 p2 r.
Proof.
  intros W1 W2 H1 H2 Ho Hwr Hg Ha.
  destruct (Enabled h1 (r_Level r)) eqn:E1.
  - assert (E2 : Enabled h2 (r_Level r) = true) by (unfold Enabled in *; now rewrite <- Ho).
    destruct (output_enabled rt w1 p1 h1 r W1 H1 E1) as (g1 & L1 & ->).
    destruct (output_enabled rt w2 p2 h2 r W2 H2 E2) as (g2 & L2 & ->).
    rewrite Hg, L2 in L1. injection L1 as <-. now rewrite Ho, Hwr, Ha.
  - assert (E2 : Enabled h2 (r_Level r) = false) by (unfold Enabled in *; now rewrite <- Ho).
    now rewrite (output_disabled rt w1 p1 h1 r H1 E1), (output_disabled rt w2 p2 h2 r H2 E2).
Qed.

Lemma WithAttrs_view (rt : Runtime) (w : World) (p : nat) (h : PrettyslogHandler)
    (attrs : list Attr) (w' : World) (p' : nat) :
  World_ok w = true -> handlers w !! p = Some h ->
  WithAttrs rt w p attrs = Some (w', p') ->
  exists h', handlers w' !! p' = Some h' /\ World_ok w' = true
    /\ h_opts h' = h_opts h /\ h_writer h' = h_writer h
    /\ groups_of w' h' = groups_of w h
    /\ attrs_of w' h' = attrs_of w h ++ attrs.
Proof.
  intros Hw Hh E. destruct (WithAttrs_ok rt w p attrs w' p' Hw E) as [Hw' _].
  destruct attrs as [|a attrs].
  - injection E as <- <-. exists h. rewrite app_nil_r. repeat split; auto.
  - destruct (WithAttrs_spec rt w p h (a :: attrs) Hh ltac:(discriminate))
      as (w1 & h1 & E1 & Hx & Hs & Hg & Ho & Hwr & Hmu & b & Hb & _ & Hl & Hn).
    rewrite E1 in E. injection E as <- <-. exists h1.
    repeat split; auto.
    + destruct Hx as (_ & _ & -> & _). now apply list_lookup_middle.
    + unfold groups_of. now rewrite Hs, Hg.
    + unfold attrs_of at 1. now destruct (slice_ok_fresh _ _ _ _ Hb Hl Hn) as [_ ->].
Qed.

Lemma WithGroup_view (rt : Runtime) (w : World) (p : nat) (h : PrettyslogHandler)
    (name : string) (w' : World) (p' : nat) :
  World_ok w = true -> handlers w !! p = Some h ->
  WithGroup rt w p name = Some (w', p') ->
  exists h', handlers w' !! p' = Some h' /\ World_ok w' = true
    /\ h_opts h' = h_opts h /\ h_writer h' = h_writer h
    /\ groups_of w' h' = groups_of w h ++ (if String.eqb name "" then [] else [name])
    /\ attrs_of w' h' = attrs_of w h.
Proof.
  intros Hw Hh E. destruct (WithGroup_ok rt w p name w' p' Hw E) as [Hw' _].
  destruct (String.eqb_spec name "") as [-> | Hne].
  - injection E as <- <-. exists h. rewrite app_nil_r. repeat split; auto.
  - destruct (WithGroup_spec rt w p h name Hh Hne)
      as (w1 & h1 & E1 & Hx & Hs & Ha & Ho & Hwr & Hmu & b & Hb & _ & Hl & Hn).
    rewrite E1 in E. injection E as <- <-. exists h1.
    repeat split; auto.
    + destruct Hx as (_ & _ & -> & _). now apply list_lookup_middle.
    + unfold groups_of at 1. now destruct (slice_ok_fresh _ _ _ _ Hb Hl Hn) as [_ ->].
    + unfold attrs_of. now rewrite Hs, Ha.
Qed.

Lemma WithAttrs_total (rt : Runtime) (w : World) (p : nat) (h : PrettyslogHandler)
    (attrs : list Attr) :
  handlers w !! p = Some h -> exists w' p', WithAttrs rt w p attrs = Some (w', p').
Proof.
  intros Hh. destruct attrs as [|a attrs]; [now exists w, p |].
  destruct (WithAttrs_spec rt w p h (a :: attrs) Hh ltac:(discriminate))
    as (w1 & h1 & E1 & _). eauto.
Qed.

Lemma WithGroup_total (rt : Runtime) (w : World) (p : nat) (h : PrettyslogHandler)
    (name : string) :
  handlers w !! p = Some h -> exists w' p', WithGroup rt w p name = Some (w', p').
Proof.
  intros Hh. destruct (String.eqb_spec name "") as [-> | Hne]; [now exists w, p |].
  destruct (WithGroup_spec rt w p h name Hh Hne) as (w1 & h1 & E1 & _). eauto.
Qed.

Lemma concat_map_ext (f f' : Attr -> string) (g : list Attr) :
  (forall a, In a g -> f a = f' a) -> concat_map f g = concat_map f' g.
Proof.
  induction g as [|a g IH]; intros H; [reflexivity |].
  cbn [concat_map fold_right]. rewrite (H a) by now left.
  f_equal. apply IH. intros x Hx. apply H. now right.
Qed.

Lemma attr_text_group (o : options) (lc prefix k : string) (g : list Attr) :
  attr_text o lc prefix (mkAttr k (GroupValue g))
  = concat_map (fun a => separator o +:+ attr_text o lc (dotted prefix k) a) g.
Proof.
  cbn [attr_text]. induction g as [|a g IH]; [reflexivity |].
  cbn [concat_map fold_right]. rewrite IH. now rewrite append_assoc.
Qed.

(** [formatAttr] writes the text of the attribute. *)
Lemma formatAttr_attr_text (o : options) (a : Attr) :
  forall lc prefix, formatAttr o "" a lc prefix = attr_text o lc prefix a.
Proof.
  induction a as [k v Hv | k g IH] using Attr_induction; intros lc prefix.
  - rewrite formatAttr_scalar by exact Hv. rewrite append_nil_l.
    destruct v; try discriminate Hv; reflexivity.
  - rewrite formatAttr_group, attr_text_group. rewrite Forall_forall in IH.
    apply concat_map_ext. intros a Ha. f_equal. apply IH. now apply list_elem_of_In.
Qed.

Lemma attr_text_scalar_plain (o : options) (lc : string) (a : Attr) :
  colors o = false -> is_scalar a = true ->
  separator o +:+ attr_text o lc "" a = pair_text a.
Proof.
  intros Hoff Hs. destruct a as [k v]. unfold is_scalar in Hs. cbn in Hs.
  rewrite (separator_plain o Hoff). unfold pair_text. cbn [Key Value_].
  destruct v; try discriminate Hs; cbn [attr_text]; rewrite Hoff, !colorize_off;
    reflexivity.
Qed.

(** C6. Through the handler derived by [WithAttrs(newAttrs)], the line of a
    record is the text before the attributes, then the attributes the parent
    had inherited, in their order, then [newAttrs] in their order, then the
    record's own attributes in their order, then the newline; each attribute
    is written after a separator as its text ([attr_text]: dotted key, [=],
    value, groups flattened).  When colours are disabled and no attribute is
    a group, the attributes are literally [; key=value], one after the other
    in that order. *)
Theorem C6_inherited_first (rt : Runtime) (w : World) (p : nat) (h : PrettyslogHandler)
    (newAttrs : list Attr) (r : slog_Record rt) :
  World_ok w = true -> handlers w !! p = Some h -> Enabled h (r_Level r) = true ->
  exists w' p' h' label,
    WithAttrs rt w p newAttrs = Some (w', p')
    /\ handlers w' !! p' = Some h'
    /\ attrs_of w' h' = attrs_of w h ++ newAttrs
    /\ last (groups_of w h) = Some label
    /\ output rt w' p' r
       = Some [(h_writer h,
                label +:+ " " +:+ after_label rt (h_opts h) r
                +:+ concat_map (fun a => separator (h_opts h)
                      +:+ attr_text (h_opts h) (attrColor (h_opts h) (r_Level r)) "" a)
                      (attrs_of w h)
                +:+ concat_map (fun a => separator (h_opts h)
                      +:+ attr_text (h_opts h) (attrColor (h_opts h) (r_Level r)) "" a)
                      newAttrs
                +:+ concat_map (fun a => separator (h_opts h)
                      +:+ attr_text (h_opts h) (attrColor (h_opts h) (r_Level r)) "" a)
                      (r_attrs r)
                +:+ String LF "")]
    /\ (colors (h_opts h) = false ->
        forallb is_scalar (attrs_of w h ++ newAttrs ++ r_attrs r) = true ->
        output rt w' p' r
        = Some [(h_writer h,
                 label +:+ " " +:+ after_label rt (h_opts h) r
                 +:+ concat_map pair_text (attrs_of w h)
                 +:+ concat_map pair_text newAttrs
                 +:+ concat_map pair_text (r_attrs r)
                 +:+ String LF "")]).
Proof.
  intros Hw Hh He.
  destruct (WithAttrs_total rt w p h newAttrs Hh) as (w' & p' & E).
  destruct (WithAttrs_view rt w p h newAttrs w' p' Hw Hh E)
    as (h' & Hh' & Hw' & Hop & Hwr & Hg & Ha).
  assert (He' : Enabled h' (r_Level r) = true) by (unfold Enabled in *; now rewrite Hop).
  destruct (output_enabled rt w' p' h' r Hw' Hh' He') as (g & Hl & Ho).
  rewrite Hg in Hl.
  set (one := fun a => separator (h_opts h)
                +:+ attr_text (h_opts h) (attrColor (h_opts h) (r_Level r)) "" a).
  assert (Out : output rt w' p' r
                = Some [(h_writer h,
                         g +:+ " " +:+ after_label rt (h_opts h) r
                         +:+ concat_map one (attrs_of w h)
                         +:+ concat_map one newAttrs
                         +:+ concat_map one (r_attrs r)
                         +:+ String LF "")]).
  { rewrite Ho, Hwr, Hop, Ha. unfold line, line_tail.
    rewrite colorize_plain, !formatAttrs_app, !formatAttrs_text, !append_assoc.
    do 4 f_equal. f_equal.
    assert (X : forall l,
              concat_map (fun a => separator (h_opts h)
                            +:+ formatAttr (h_opts h) "" a
                                  (attrColor (h_opts h) (r_Level r)) "") l
              = concat_map one l).
    { intros l. apply concat_map_ext. intros a _. unfold one.
      now rewrite formatAttr_attr_text. }
    now rewrite !X. }
  exists w', p', h', g. do 4 (split; [assumption |]). split; [exact Out |].
  intros Hoff Hflat. rewrite Out.
  rewrite !forallb_app in Hflat. apply andb_true_iff in Hflat as [F1 F2].
  apply andb_true_iff in F2 as [F2 F3].
  assert (X : forall l, forallb is_scalar l = true ->
                        concat_map one l = concat_map pair_text l).
  { intros l Hl'. rewrite forallb_forall in Hl'. apply concat_map_ext.
    intros a Hin. unfold one. apply attr_text_scalar_plain; auto. }
  now rewrite (X _ F1), (X _ F2), (X _ F3).
Qed.

Lemma C6_inherited_first_witness :
  exists w' p',
    WithAttrs sample_rt session_World 1 [mkAttr "request_id" (Int64Value 7)]
    = Some (w', p')
    /\ attrs_of session_World session_handler
       = [mkAttr "session_id" (StringValue "abc123")]
    /\ output sample_rt w' p' user_Record = Some [(os_Stderr, session_line)].
Proof.
  destruct (C6_inherited_first sample_rt session_World 1 session_handler
              [mkAttr "request_id" (Int64Value 7)] user_Record
              ltac:(vm_compute; reflexivity) eq_refl eq_refl)
    as (w' & p' & h' & label & E & _ & _ & Hl & _ & Hplain).
  exists w', p'. split; [exact E |]. split; [reflexivity |].
  rewrite (Hplain eq_refl eq_refl).
  assert (L : label = "app") by (vm_compute in Hl; congruence).
  rewrite L. reflexivity.
Defined.

(** X7. Deriving twice with [WithAttrs] is deriving once with the two lists
    appended: every record is written the same through
    [h.WithAttrs(a).WithAttrs(b)] and through [h.WithAttrs(a ++ b)], the
    inherited attributes being the parent's, then [a], then [b]. *)
Theorem X7_WithAttrs_compose (rt : Runtime) (w : World) (p : nat) (h : PrettyslogHandler)
    (a b : list Attr) (r : slog_Record rt) :
  World_ok w = true -> handlers w !! p = Some h ->
  exists w2 p2 h2 out,
    (WithAttrs rt w p a ≫= fun x => WithAttrs rt x.1 x.2 b) = Some (w2, p2)
    /\ handlers w2 !! p2 = Some h2
    /\ attrs_of w2 h2 = attrs_of w h ++ a ++ b
    /\ output rt w2 p2 r = Some out
    /\ (WithAttrs rt w p (a ++ b) ≫= fun x => output rt x.1 x.2 r) = Some out.
Proof.
  intros Hw Hh.
  destruct (WithAttrs_total rt w p h a Hh) as (w1 & p1 & E1).
  destruct (WithAttrs_view rt w p h a w1 p1 Hw Hh E1)
    as (h1 & H1 & W1 & O1 & R1 & G1 & A1).
  destruct (WithAttrs_total rt w1 p1 h1 b H1) as (w2 & p2 & E2).
  destruct (WithAttrs_view rt w1 p1 h1 b w2 p2 W1 H1 E2)
    as (h2 & H2 & W2 & O2 & R2 & G2 & A2).
  destruct (WithAttrs_total rt w p h (a ++ b) Hh) as (w3 & p3 & E3).
  destruct (WithAttrs_view rt w p h (a ++ b) w3 p3 Hw Hh E3)
    as (h3 & H3 & W3 & O3 & R3 & G3 & A3).
  assert (A : attrs_of w2 h2 = attrs_of w h ++ a ++ b) by (now rewrite A2, A1, <- app_assoc).
  destruct (Handle_total rt w2 p2 h2 r W2 H2) as (w4 & err & E4).
  exists w2, p2, h2, (drop (length (trace w2)) (trace w4)).
  assert (Out : output rt w2 p2 r = Some (drop (length (trace w2)) (trace w4)))
    by (unfold output; now rewrite E4).
  rewrite E1, E3. cbn [mbind option_bind fst snd]. rewrite E2.
  repeat split; auto. rewrite <- Out. symmetry.
  apply (output_determined rt w2 w3 p2 p3 h2 h3 r); try congruence.
Qed.

Lemma X7_WithAttrs_compose_witness :
  exists w2 p2 h2 out,
    (WithAttrs sample_rt plain_World 0 [mkAttr "a" (Int64Value 1)]
       ≫= fun x => WithAttrs sample_rt x.1 x.2 [mkAttr "b" (BoolValue true)])
    = Some (w2, p2)
    /\ handlers w2 !! p2 = Some h2
    /\ attrs_of w2 h2
       = attrs_of plain_World plain_handler
         ++ [mkAttr "a" (Int64Value 1)] ++ [mkAttr "b" (BoolValue true)]
    /\ output sample_rt w2 p2 group_Record = Some out
    /\ (WithAttrs sample_rt plain_World 0
          ([mkAttr "a" (Int64Value 1)] ++ [mkAttr "b" (BoolValue true)])
          ≫= fun x => output sample_rt x.1 x.2 group_Record) = Some out.
Proof.
  apply (X7_WithAttrs_compose sample_rt plain_World 0 plain_handler).
  - vm_compute. reflexivity.
  - reflexivity.
Defined.

(** X8. The scope stack does not qualify attributes: every record is written
    the same through [h.WithGroup(name).WithAttrs(attrs)] and through
    [h.WithAttrs(attrs).WithGroup(name)]. *)
Theorem X8_group_attrs_commute (rt : Runtime) (w : World) (p : nat)
    (h : PrettyslogHandler) (name : string) (attrs : list Attr) (r : slog_Record rt) :
  World_ok w = true -> handlers w !! p = Some h ->
  exists out,
    ((WithGroup rt w p name ≫= fun x => WithAttrs rt x.1 x.2 attrs)
       ≫= fun y => output rt y.1 y.2 r) = Some out
    /\ ((WithAttrs rt w p attrs ≫= fun x => WithGroup rt x.1 x.2 name)
          ≫= fun y => output rt y.1 y.2 r) = Some out.
Proof.
  intros Hw Hh.
  destruct (WithGroup_total rt w p h name Hh) as (w1 & p1 & E1).
  destruct (WithGroup_view rt w p h name w1 p1 Hw Hh E1)
    as (h1 & H1 & W1 & O1 & R1 & G1 & A1).
  destruct (WithAttrs_total rt w1 p1 h1 attrs H1) as (w2 & p2 & E2).
  destruct (WithAttrs_view rt w1 p1 h1 attrs w2 p2 W1 H1 E2)
    as (h2 & H2 & W2 & O2 & R2 & G2 & A2).
  destruct (WithAttrs_total rt w p h attrs Hh) as (w3 & p3 & E3).
  destruct (WithAttrs_view rt w p h attrs w3 p3 Hw Hh E3)
    as (h3 & H3 & W3 & O3 & R3 & G3 & A3).
  destruct (WithGroup_total rt w3 p3 h3 name H3) as (w4 & p4 & E4).
  destruct (WithGroup_view rt w3 p3 h3 name w4 p4 W3 H3 E4)
    as (h4 & H4 & W4 & O4 & R4 & G4 & A4).
  destruct (Handle_total rt w2 p2 h2 r W2 H2) as (w5 & err & E5).
  exists (drop (length (trace w2)) (trace w5)).
  assert (Out : output rt w2 p2 r = Some (drop (length (trace w2)) (trace w5)))
    by (unfold output; now rewrite E5).
  rewrite E1, E3. cbn [mbind option_bind fst snd]. rewrite E2, E4.
  cbn [mbind option_bind fst snd]. split; [exact Out |].
  rewrite <- Out. symmetry.
  apply (output_determined rt w2 w4 p2 p4 h2 h4 r); try congruence.
Qed.

Lemma X8_group_attrs_commute_witness :
  exists out,
    ((WithGroup sample_rt plain_World 0 "db"
        ≫= fun x => WithAttrs sample_rt x.1 x.2 [mkAttr "a" (Int64Value 1)])
       ≫= fun y => output sample_rt y.1 y.2 group_Record) = Some out
    /\ ((WithAttrs sample_rt plain_World 0 [mkAttr "a" (Int64Value 1)]
           ≫= fun x => WithGroup sample_rt x.1 x.2 "db")
          ≫= fun y => output sample_rt y.1 y.2 group_Record) = Some out.
Proof.
  apply (X8_group_attrs_commute sample_rt plain_World 0 plain_handler).
  - vm_compute. reflexivity.
  - reflexivity.
Defined.

(** X9. Handling a record leaves no mark on later lines: after any call of
    [Handle], every handler writes every record as it would have before. *)
Theorem X9_Handle_repeatable (rt : Runtime) (w : World) (q : nat) (r0 : slog_Record rt)
    (w' : World) (err : option (error rt)) (p : nat) (h : PrettyslogHandler)
    (r : slog_Record rt) :
  World_ok w = true -> Handle rt w q r0 = Some (w', err) ->
  handlers w !! p = Some h ->
  handlers w' !! p = Some h /\ output rt w' p r = output rt w p r.
Proof.
  intros Hw E Hh. destruct (Handle_frame rt w q r0 w' err E) as (E1 & E2 & E3).
  assert (Hh' : handlers w' !! p = Some h) by now rewrite E3.
  split; [exact Hh' |].
  apply (output_determined rt w' w p p h h r); auto.
  - now apply (World_ok_same w w').
  - unfold groups_of. now rewrite E1.
  - unfold attrs_of. now rewrite E2.
Qed.

Lemma X9_Handle_repeatable_witness :
  handlers (default (plain_World, None)
              (Handle sample_rt plain_World 0 escape_Record)).1 !! 0%nat
  = Some plain_handler
  /\ output sample_rt
       (default (plain_World, None) (Handle sample_rt plain_World 0 escape_Record)).1
       0 group_Record
     = output sample_rt plain_World 0 group_Record.
Proof.
  apply (X9_Handle_repeatable sample_rt plain_World 0 escape_Record _ None).
  - vm_compute. reflexivity.
  - vm_compute. reflexivity.
  - reflexivity.
Defined.

(** ** The layout of a line *)

(** X10. The timestamp and the call site are optional segments, each with
    its own trailing space.  The timestamp is written only when it is
    enabled and the time of the record is not zero, the call site only when
    it is enabled and the program counter is not zero; a segment that is
    left out leaves no space behind, and the timestamp comes before the
    call site. *)
Theorem X10_optional_segments (rt : Runtime) (w : World) (p : nat)
    (h : PrettyslogHandler) (r : slog_Record rt) :
  World_ok w = true -> handlers w !! p = Some h -> Enabled h (r_Level r) = true ->
  exists label ts src rest,
    last (groups_of w h) = Some label
    /\ ts = colorize (Time_Format rt (r_Time r) (timestampFormat (h_opts h)))
              (colors (h_opts h)) FgGray
    /\ src = colorize ((CallersFrame rt (r_PC r)).1 +:+ ":"
                       +:+ itoa (CallersFrame rt (r_PC r)).2)
               (colors (h_opts h)) FgGray
    /\ rest = r_Message r
              +:+ formatAttrs (h_opts h) (attrs_of w h ++ r_attrs r)
                    (attrColor (h_opts h) (r_Level r))
              +:+ String LF ""
    /\ ((includeTimestamp (h_opts h) = false \/ Time_IsZero rt (r_Time r) = true) ->
        (includeSource (h_opts h) = false \/ r_PC r = 0%N) ->
        output rt w p r
        = Some [(h_writer h,
                 label +:+ " " +:+ formatLevel (h_opts h) (r_Level r) +:+ " " +:+ rest)])
    /\ (includeTimestamp (h_opts h) = true -> Time_IsZero rt (r_Time r) = false ->
        (includeSource (h_opts h) = false \/ r_PC r = 0%N) ->
        output rt w p r
        = Some [(h_writer h,
                 label +:+ " " +:+ formatLevel (h_opts h) (r_Level r) +:+ " "
                 +:+ ts +:+ " " +:+ rest)])
    /\ ((includeTimestamp (h_opts h) = false \/ Time_IsZero rt (r_Time r) = true) ->
        includeSource (h_opts h) = true -> r_PC r <> 0%N ->
        output rt w p r
        = Some [(h_writer h,
                 label +:+ " " +:+ formatLevel (h_opts h) (r_Level r) +:+ " "
                 +:+ src +:+ " " +:+ rest)])
    /\ (includeTimestamp (h_opts h) = true -> Time_IsZero rt (r_Time r) = false ->
        includeSource (h_opts h) = true -> r_PC r <> 0%N ->
        output rt w p r
        = Some [(h_writer h,
                 label +:+ " " +:+ formatLevel (h_opts h) (r_Level r) +:+ " "
                 +:+ ts +:+ " " +:+ src +:+ " " +:+ rest)]).
Proof.
  intros Hw Hh He. destruct (output_enabled rt w p h r Hw Hh He) as (g & Hl & Ho).
  eexists g, _, _, _. split; [exact Hl |]. do 3 (split; [reflexivity |]).
  rewrite Ho. unfold line, line_tail, after_label, timestamp_part, source_part, source_text.
  rewrite !colorize_plain.
  assert (T0 : includeTimestamp (h_opts h) = false \/ Time_IsZero rt (r_Time r) = true ->
               includeTimestamp (h_opts h) && negb (Time_IsZero rt (r_Time r)) = false)
    by (intros [-> | ->]; [reflexivity | apply andb_false_r]).
  assert (S0 : includeSource (h_opts h) = false \/ r_PC r = 0%N ->
               includeSource (h_opts h) && negb (r_PC r =? 0)%N = false)
    by (intros [-> | ->]; [reflexivity | apply andb_false_r]).
  assert (S1 : r_PC r <> 0%N -> negb (r_PC r =? 0)%N = true)
    by (intros H; apply N.eqb_neq in H; now rewrite H).
  repeat split.
  - intros HT HS. rewrite (T0 HT), (S0 HS).
    rewrite ?append_nil_l, ?append_assoc. reflexivity.
  - intros HT HZ HS. rewrite HT, HZ, (S0 HS). cbn [andb negb].
    rewrite ?append_nil_l, ?append_assoc. reflexivity.
  - intros HT HS HP. rewrite (T0 HT), HS, (S1 HP). cbn [andb].
    rewrite ?append_nil_l, ?append_assoc. reflexivity.
  - intros HT HZ HS HP. rewrite HT, HZ, HS, (S1 HP). cbn [andb negb].
    rewrite ?append_nil_l, ?append_assoc. reflexivity.
Qed.

Lemma X10_optional_segments_witness :
  exists label ts src rest,
    last (groups_of plain_World plain_handler) = Some label
    /\ ts = colorize (Time_Format sample_rt (r_Time group_Record)
                        (timestampFormat (h_opts plain_handler)))
              (colors (h_opts plain_handler)) FgGray
    /\ src = colorize ((CallersFrame sample_rt (r_PC group_Record)).1 +:+ ":"
                       +:+ itoa (CallersFrame sample_rt (r_PC group_Record)).2)
               (colors (h_opts plain_handler)) FgGray
    /\ rest = r_Message group_Record
              +:+ formatAttrs (h_opts plain_handler)
                    (attrs_of plain_World plain_handler ++ r_attrs group_Record)
                    (attrColor (h_opts plain_handler) (r_Level group_Record))
              +:+ String LF ""
    /\ output sample_rt plain_World 0 group_Record
       = Some [(h_writer plain_handler,
                label +:+ " " +:+ formatLevel (h_opts plain_handler) (r_Level group_Record)
                +:+ " " +:+ ts +:+ " " +:+ rest)].
Proof.
  destruct (X10_optional_segments sample_rt plain_World 0 plain_handler group_Record
              ltac:(vm_compute; reflexivity) eq_refl eq_refl)
    as (label & ts & src & rest & H1 & H2 & H3 & H4 & _ & H6 & _).
  exists label, ts, src, rest. do 4 (split; [assumption |]).
  apply H6; [reflexivity | reflexivity | now left].
Defined.

(** ** Keys *)

Lemma formatAttr_nest (o : options) (path : list string) (k : string) (v : Value)
    (lc prefix : string) :
  isGroup v = false ->
  formatAttr o "" (nest path (mkAttr k v)) lc prefix
  = repeat_text (length path) (separator o)
    +:+ colorize (fold_left dotted (path ++ [k]) prefix) (colors o) lc
    +:+ colorize "=" (colors o) FgGray
    +:+ colorize (Sprint_v v) (colors o) "".
Proof.
  intros Hv. revert prefix. induction path as [|g path IH]; intros prefix.
  - cbn [nest fold_right length repeat_text app fold_left].
    rewrite formatAttr_scalar by exact Hv. now rewrite !append_nil_l.
  - cbn [nest fold_right length repeat_text app fold_left].
    rewrite formatAttr_group. cbn [concat_map fold_right].
    fold (nest path (mkAttr k v)). rewrite IH, append_nil_r.
    now rewrite !append_assoc.
Qed.

Lemma dotted_path (path : list string) (k prefix : string) :
  Forall (fun g => g <> "") path ->
  fold_left dotted (path ++ [k]) prefix
  = if String.eqb prefix "" then String.concat "." (path ++ [k])
    else prefix +:+ "." +:+ String.concat "." (path ++ [k]).
Proof.
  intros H. revert prefix. induction H as [|g path Hg _ IH]; intros prefix.
  - reflexivity.
  - cbn [app fold_left]. rewrite IH.
    assert (Hne : String.eqb (dotted prefix g) "" = false).
    { unfold dotted. destruct (String.eqb_spec prefix "").
      - now apply String.eqb_neq.
      - destruct prefix; [congruence | reflexivity]. }
    rewrite Hne.
    assert (C : String.concat "." (g :: path ++ [k])
                = g +:+ "." +:+ String.concat "." (path ++ [k]))
      by (destruct path; reflexivity).
    rewrite C. unfold dotted. destruct (String.eqb prefix ""); [reflexivity |].
    now rewrite !append_assoc.
Qed.

(** X11. A scalar attribute inside nested groups is written under its dotted
    path: after one separator for itself and one for each enclosing group
    comes the key made of the group names and its own key, joined by dots
    when no group name is empty; a group with an empty name at the top adds
    nothing to the key. *)
Theorem X11_nested_keys (o : options) (path : list string) (k : string) (v : Value)
    (lc : string) :
  isGroup v = false ->
  formatAttrs o [nest path (mkAttr k v)] lc
  = repeat_text (S (length path)) (separator o)
    +:+ colorize (fold_left dotted (path ++ [k]) "") (colors o) lc
    +:+ colorize "=" (colors o) FgGray
    +:+ colorize (Sprint_v v) (colors o) ""
  /\ (Forall (fun g => g <> "") path ->
      fold_left dotted (path ++ [k]) "" = String.concat "." (path ++ [k]))
  /\ fold_left dotted ("" :: path ++ [k]) "" = fold_left dotted (path ++ [k]) "".
Proof.
  intros Hv. split; [| split].
  - rewrite formatAttrs_text. cbn [concat_map fold_right repeat_text].
    rewrite formatAttr_nest by exact Hv. now rewrite append_nil_r, !append_assoc.
  - intros H. now rewrite dotted_path.
  - reflexivity.
Qed.

Lemma X11_nested_keys_witness :
  formatAttrs (h_opts plain_handler)
    [nest ["http"; "request"] (mkAttr "status" (Int64Value 200))] ""
  = repeat_text 3 (separator (h_opts plain_handler))
    +:+ colorize (fold_left dotted (["http"; "request"] ++ ["status"]) "")
          (colors (h_opts plain_handler)) ""
    +:+ colorize "=" (colors (h_opts plain_handler)) FgGray
    +:+ colorize (Sprint_v (Int64Value 200)) (colors (h_opts plain_handler)) ""
  /\ (Forall (fun g => g <> "") ["http"; "request"] ->
      fold_left dotted (["http"; "request"] ++ ["status"]) ""
      = String.concat "." (["http"; "request"] ++ ["status"]))
  /\ fold_left dotted ("" :: ["http"; "request"] ++ ["status"]) ""
     = fold_left dotted (["http"; "request"] ++ ["status"]) "".
Proof.
  apply (X11_nested_keys (h_opts plain_handler) ["http"; "request"] "status"
           (Int64Value 200) "").
  reflexivity.
Defined.

Lemma scalar_counts (l : list Attr) :
  forallb is_scalar l = true ->
  sum_list_with nodes l = length l /\ sum_list_with leaves l = length l.
Proof.
  induction l as [|[k v] l IH]; [now split |].
  cbn [forallb]. intros H. apply andb_true_iff in H as [Hv H].
  destruct (IH H) as [IH1 IH2]. cbn [sum_list_with length].
  rewrite IH1, IH2. unfold is_scalar in Hv. cbn in Hv.
  destruct v; try discriminate Hv; auto.
Qed.

Lemma formatAttrs_flat (o : options) (l : list Attr) (lc : string) :
  colors o = false -> forallb is_scalar l = true ->
  formatAttrs o l lc
  = concat_map (fun a => "; " +:+ Key a +:+ "=" +:+ Sprint_v (Value_ a)) l.
Proof.
  intros Hoff H. rewrite formatAttrs_text.
  induction l as [|[k v] l IH]; [reflexivity |].
  cbn [forallb] in H. apply andb_true_iff in H as [Hv H].
  cbn [concat_map fold_right]. f_equal; [| exact (IH H)].
  unfold is_scalar in Hv. cbn in Hv. apply negb_true_iff in Hv.
  rewrite formatAttr_scalar by exact Hv.
  rewrite (separator_plain o Hoff), Hoff, !colorize_off. reflexivity.
Qed.

(** X12. When no attribute is a group, the line has one separator for each
    attribute, which is also the number of scalar leaves; and with colours
    disabled each attribute is written as [; key=value], the inherited ones
    first. *)
Theorem X12_flat_attributes (rt : Runtime) (w : World) (p : nat)
    (h : PrettyslogHandler) (r : slog_Record rt) :
  World_ok w = true -> handlers w !! p = Some h -> Enabled h (r_Level r) = true ->
  forallb is_scalar (attrs_of w h ++ r_attrs r) = true ->
  exists label ln,
    last (groups_of w h) = Some label
    /\ output rt w p r = Some [(h_writer h, ln)]
    /\ sum_list_with leaves (attrs_of w h ++ r_attrs r)
       = length (attrs_of w h ++ r_attrs r)
    /\ (texts_free semicolon rt (h_opts h) label (attrs_of w h) r = true ->
        count_sub (separator (h_opts h)) ln
        = sum_list_with leaves (attrs_of w h ++ r_attrs r))
    /\ (colors (h_opts h) = false ->
        ln = label +:+ " " +:+ after_label rt (h_opts h) r
             +:+ concat_map (fun a => "; " +:+ Key a +:+ "=" +:+ Sprint_v (Value_ a))
                   (attrs_of w h ++ r_attrs r)
             +:+ String LF "").
Proof.
  intros Hw Hh He Hflat.
  destruct (output_enabled rt w p h r Hw Hh He) as (g & Hl & Ho).
  destruct (scalar_counts _ Hflat) as [Hn Hlv].
  exists g, (line rt (h_opts h) g (attrs_of w h) r).
  split; [exact Hl |]. split; [exact Ho |]. split; [exact Hlv |]. split.
  - intros Hf. rewrite Hlv, <- Hn. apply line_seps; [exact Hf |].
    apply (handler_ok_color w). exact (World_ok_lookup w p h Hw Hh).
  - intros Hoff. unfold line, line_tail.
    now rewrite colorize_plain, (formatAttrs_flat _ _ _ Hoff Hflat).
Qed.

Lemma X12_flat_attributes_witness :
  exists ln,
    output sample_rt plain_World 0
      (sample_Record "Test message" LevelInfo [mkAttr "key" (StringValue "value")])
    = Some [(h_writer plain_handler, ln)]
    /\ count_sub (separator (h_opts plain_handler)) ln = 1%nat
    /\ ln = "app" +:+ " "
            +:+ after_label sample_rt (h_opts plain_handler)
                  (sample_Record "Test message" LevelInfo
                     [mkAttr "key" (StringValue "value")])
            +:+ "; key=value" +:+ String LF "".
Proof.
  destruct (X12_flat_attributes sample_rt plain_World 0 plain_handler
              (sample_Record "Test message" LevelInfo [mkAttr "key" (StringValue "value")])
              ltac:(vm_compute; reflexivity) eq_refl eq_refl eq_refl)
    as (label & ln & Hl & Ho & Hlv & Hc & Hp).
  injection Hl as <-.
  exists ln. split; [exact Ho |]. split.
  - rewrite Hc; [reflexivity | vm_compute; reflexivity].
  - now rewrite Hp.
Defined.

(** ** Characters of the line *)

Section Own.
Variable c : ascii.
Hypothesis Hown : count_char c own_texts = O.

Lemma own_parts :
  count_char c " " = O /\ count_char c "." = O /\ count_char c "=" = O
  /\ count_char c ":" = O /\ count_char c ";" = O /\ count_char c "-0123456789" = O
  /\ count_char c "DBG" = O /\ count_char c "INF" = O /\ count_char c "WAR" = O
  /\ count_char c "ERR" = O /\ count_char c "UNK" = O
  /\ count_char c FgGray = O /\ count_char c ColorReset = O
  /\ count_char c FgMagenta = O /\ count_char c FgBlue = O /\ count_char c FgYellow = O
  /\ count_char c FgRed = O /\ count_char c FgWhite = O.
Proof.
  pose proof Hown as H. unfold own_texts in H. rewrite !count_char_app in H.
  repeat split; lia.
Qed.

Lemma uint_own (d : Decimal.uint) : count_char c (NilEmpty.string_of_uint d) = O.
Proof.
  destruct own_parts as (_ & _ & _ & _ & _ & D & _). simpl in D.
  repeat match type of D with
         | context [Ascii.eqb c ?x] =>
           destruct (Ascii.eqb c x) eqn:?; [simpl in D; lia |]
         end.
  induction d; simpl;
    repeat match goal with
           | E : Ascii.eqb c ?x = false |- context [Ascii.eqb c ?x] => rewrite E
           end; auto.
Qed.

Lemma itoa_own (z : Z) : count_char c (itoa z) = O.
Proof.
  destruct own_parts as (_ & _ & _ & _ & _ & D & _). simpl in D.
  repeat match type of D with
         | context [Ascii.eqb c ?x] =>
           destruct (Ascii.eqb c x) eqn:?; [simpl in D; lia |]
         end.
  unfold itoa, NilZero.string_of_int, NilZero.string_of_uint.
  destruct (Z.to_int z) as [d | d]; destruct d; try apply (uint_own (_ _)); simpl;
    repeat match goal with
           | E : Ascii.eqb c ?x = false |- context [Ascii.eqb c ?x] => rewrite E
           end; auto; simpl; apply (uint_own (_ _)) || apply uint_own.
Qed.

Lemma dotted_own (prefix key : string) :
  count_char c prefix = O -> count_char c key = O ->
  count_char c (dotted prefix key) = O.
Proof.
  intros Hp Hk. destruct own_parts as (_ & Hdot & _).
  unfold dotted. destruct (String.eqb prefix ""); [exact Hk |].
  rewrite !count_char_app. lia.
Qed.

Lemma colorize_own (t : string) (e : bool) (code : string) :
  count_char c t = O -> count_char c code = O ->
  count_char c (colorize t e code) = O.
Proof.
  intros Ht Hcode. destruct own_parts as (_ & _ & _ & _ & _ & _ & _ & _ & _ & _ & _ & _ & R & _).
  unfold colorize. destruct (negb e || String.eqb code ""); [exact Ht |].
  rewrite !count_char_app. lia.
Qed.

Lemma attrColor_own (o : options) (l : Level) :
  levelColors o = levelColors defaultOptions -> count_char c (attrColor o l) = O.
Proof.
  intros E. pose proof (attrColor_default o l E) as Hin. simpl in Hin.
  destruct own_parts as (_ & _ & _ & _ & _ & _ & _ & _ & _ & _ & _ & _ & _ & ? & ? & ? & ? & ?).
  destruct Hin as [<- | [<- | [<- | [<- | [<- | []]]]]]; assumption.
Qed.

Lemma separator_own (o : options) : count_char c (separator o) = O.
Proof.
  destruct own_parts as (Hsp & _ & _ & _ & Hsemi & _ & _ & _ & _ & _ & _ & Hg & _).
  unfold separator. rewrite count_char_app, colorize_own by assumption. exact Hsp.
Qed.

Lemma formatAttr_own (o : options) (a : Attr) :
  Attr_free c a = true ->
  forall lc prefix, count_char c lc = O -> count_char c prefix = O ->
    count_char c (formatAttr o "" a lc prefix) = O.
Proof.
  destruct own_parts as (_ & _ & Heq & _ & _ & _ & _ & _ & _ & _ & _ & Hg & _).
  induction a as [k v Hv | k g IH] using Attr_induction; intros Hf lc prefix Hlc Hp.
  - assert (Hk : count_char c k = O /\ count_char c (Sprint_v v) = O).
    { destruct v; try discriminate Hv; cbn [Attr_free] in Hf;
        apply andb_true_iff in Hf as [H1 H2];
        apply Nat.eqb_eq in H1, H2; auto. }
    destruct Hk as [Hk Hval].
    rewrite formatAttr_scalar by exact Hv. rewrite append_nil_l, !count_char_app.
    rewrite !colorize_own; auto using dotted_own.
  - cbn [Attr_free] in Hf. apply andb_true_iff in Hf as [Hk Hgr].
    apply Nat.eqb_eq in Hk. rewrite formatAttr_group.
    rewrite forallb_forall in Hgr. rewrite Forall_forall in IH.
    apply concat_map_free. intros a Ha.
    rewrite count_char_app, separator_own.
    apply IH; [now apply list_elem_of_In | now apply Hgr | assumption |].
    now apply dotted_own.
Qed.

Lemma formatAttrs_own (o : options) (attrs : list Attr) (lc : string) :
  forallb (Attr_free c) attrs = true -> count_char c lc = O ->
  count_char c (formatAttrs o attrs lc) = O.
Proof.
  intros Hf Hlc. rewrite formatAttrs_text. rewrite forallb_forall in Hf.
  apply concat_map_free. intros a Ha.
  rewrite count_char_app, separator_own, formatAttr_own; auto.
Qed.

Lemma line_own (rt : Runtime) (o : options) (g : string) (inh : list Attr)
    (r : slog_Record rt) :
  levelColors o = levelColors defaultOptions ->
  texts_free c rt o g inh r = true ->
  exists body, line rt o g inh r = body +:+ String LF "" /\ count_char c body = O.
Proof.
  intros E Hf. apply texts_free_elim in Hf as (Hg & Ht & Hs & Hm & Ha).
  destruct own_parts as (Hsp & _ & _ & Hcolon & _ & _ & T1 & T2 & T3 & T4 & T5 & Hgray & _).
  exists (g +:+ " " +:+ after_label rt o r
          +:+ formatAttrs o (inh ++ r_attrs r) (attrColor o (r_Level r))).
  split.
  - unfold line, line_tail. now rewrite colorize_plain, !append_assoc.
  - rewrite !count_char_app, Hg, Hsp, formatAttrs_own by auto using attrColor_own.
    unfold after_label, timestamp_part, source_part, source_text.
    destruct (formatLevel_color o (r_Level r)) as (tag & -> & Htag).
    assert (T : count_char c tag = O)
      by (simpl in Htag; destruct Htag as [<- | [<- | [<- | [<- | [<- | []]]]]];
          assumption).
    rewrite !count_char_app, Hsp.
    rewrite (colorize_own tag), colorize_plain, Hm by auto using attrColor_own.
    destruct (includeTimestamp o && _); destruct (includeSource o && _);
      rewrite ?count_char_app, ?colorize_own, ?Hsp;
      rewrite ?count_char_app, ?Hs, ?Hcolon, ?itoa_own; auto.
Qed.
End Own.

(** X13. The handler adds only characters of its own texts: a character that
    occurs neither in them nor in the texts of the record does not occur in
    the line before its final newline.  For the newline itself this says
    that a record whose texts hold no newline is written as exactly one
    line. *)
Theorem X13_own_characters (rt : Runtime) (w : World) (p : nat)
    (h : PrettyslogHandler) (r : slog_Record rt) (c : ascii) :
  World_ok w = true -> handlers w !! p = Some h -> Enabled h (r_Level r) = true ->
  count_char c own_texts = O ->
  texts_free c rt (h_opts h) (default "" (last (groups_of w h))) (attrs_of w h) r = true ->
  exists body,
    output rt w p r = Some [(h_writer h, body +:+ String LF "")]
    /\ count_char c body = O.
Proof.
  intros Hw Hh He Hown Hf.
  destruct (output_enabled rt w p h r Hw Hh He) as (g & Hl & Ho).
  rewrite Hl in Hf. cbn [default] in Hf.
  pose proof (World_ok_lookup w p h Hw Hh) as Hok.
  unfold handler_ok in Hok. apply andb_true_iff in Hok as [_ Hc].
  apply bool_decide_eq_true in Hc.
  destruct (line_own c Hown rt (h_opts h) g (attrs_of w h) r Hc Hf) as (body & E & Hb).
  exists body. now rewrite Ho, E.
Qed.

Lemma X13_own_characters_witness :
  exists body,
    output sample_rt plain_World 0 group_Record
    = Some [(h_writer plain_handler, body +:+ String LF "")]
    /\ count_char LF body = O.
Proof.
  apply (X13_own_characters sample_rt plain_World 0 plain_handler group_Record LF).
  - vm_compute. reflexivity.
  - reflexivity.
  - reflexivity.
  - reflexivity.
  - vm_compute. reflexivity.
Defined.

(** ** The tests' [stripAnsi] *)

Lemma ansi_match_text (c : ascii) (s : string) :
  Ascii.eqb ESC c = false -> ansi_match (String c s) = None.
Proof.
  intros H. destruct s as [|d s]; [reflexivity |].
  unfold ansi_match. now rewrite Ascii.eqb_sym, H.
Qed.

Lemma strips_text (t : string) : count_char ESC t = O -> strips_to t t.
Proof.
  intros H s. induction t as [|c t IH]; [reflexivity |].
  cbn [count_char] in H. destruct (Ascii.eqb ESC c) eqn:E; [lia |].
  rewrite !append_cons. cbn [stripAnsi_from].
  rewrite (ansi_match_text c _ E). now rewrite IH by lia.
Qed.

Lemma strips_code (code : string) : In code color_codes -> strips_to code "".
Proof.
  intros H s. unfold color_codes in H. simpl in H.
  destruct H as [<- | [<- | [<- | [<- | [<- | [<- | [<- | []]]]]]]]; reflexivity.
Qed.

Lemma strips_app (a a' b b' : string) :
  strips_to a a' -> strips_to b b' -> strips_to (a +:+ b) (a' +:+ b').
Proof. intros Ha Hb s. now rewrite !append_assoc, Ha, Hb. Qed.

Lemma strips_nil : strips_to "" "".
Proof. intros s. reflexivity. Qed.

Lemma strips_colorize (t : string) (e : bool) (code : string) :
  count_char ESC t = O -> code = "" \/ In code color_codes ->
  strips_to (colorize t e code) t.
Proof.
  intros Ht Hcode. unfold colorize.
  destruct (negb e || String.eqb code "") eqn:E; [now apply strips_text |].
  destruct Hcode as [-> | Hin]; [now rewrite orb_true_r in E |].
  replace t with ("" +:+ t +:+ "") at 2 by (now rewrite append_nil_l, append_nil_r).
  apply strips_app; [now apply strips_code |].
  apply strips_app; [now apply strips_text |].
  apply strips_code. unfold color_codes. simpl. tauto.
Qed.

Lemma strips_concat_map (f f' : Attr -> string) (g : list Attr) :
  (forall a, In a g -> strips_to (f a) (f' a)) ->
  strips_to (concat_map f g) (concat_map f' g).
Proof.
  induction g as [|a g IH]; intros H; [apply strips_nil |].
  cbn [concat_map fold_right]. apply strips_app; [apply H; now left |].
  apply IH. intros x Hx. apply H. now right.
Qed.

Lemma strips_total (x y : string) : strips_to x y -> stripAnsi x = y.
Proof.
  intros H. unfold stripAnsi. specialize (H "").
  rewrite append_nil_r in H. rewrite H. cbn [stripAnsi_from]. apply append_nil_r.
Qed.

Lemma attrColor_code (o : options) (l : Level) :
  levelColors o = levelColors defaultOptions ->
  attrColor o l = "" \/ In (attrColor o l) color_codes.
Proof.
  intros E. right. pose proof (attrColor_default o l E) as H.
  unfold color_codes. simpl in *. tauto.
Qed.

Section Strip.
Variable o : options.
Hypothesis Hdefault : levelColors o = levelColors defaultOptions.

Lemma strips_separator : strips_to (separator o) (separator (without_colors o)).
Proof.
  unfold separator. apply strips_app.
  - apply strips_colorize; [reflexivity |]. right. unfold color_codes. simpl. tauto.
  - now apply strips_text.
Qed.

Lemma strips_formatAttr (a : Attr) :
  Attr_free ESC a = true ->
  forall lc prefix,
    lc = "" \/ In lc color_codes -> count_char ESC prefix = O ->
    strips_to (formatAttr o "" a lc prefix) (formatAttr (without_colors o) "" a lc prefix).
Proof.
  induction a as [k v Hv | k g IH] using Attr_induction; intros Hf lc prefix Hlc Hp.
  - assert (Hk : count_char ESC k = O /\ count_char ESC (Sprint_v v) = O).
    { destruct v; try discriminate Hv; cbn [Attr_free] in Hf;
        apply andb_true_iff in Hf as [H1 H2];
        apply Nat.eqb_eq in H1, H2; auto. }
    destruct Hk as [Hk Hval].
    rewrite !formatAttr_scalar by exact Hv. rewrite !append_nil_l.
    cbn [without_colors apply_Option colors]. rewrite !colorize_off.
    repeat apply strips_app.
    + apply strips_colorize; [| exact Hlc]. apply dotted_free; auto.
    + apply strips_colorize; [reflexivity |]. right. unfold color_codes. simpl. tauto.
    + apply strips_colorize; auto.
  - cbn [Attr_free] in Hf. apply andb_true_iff in Hf as [Hk Hg].
    apply Nat.eqb_eq in Hk. rewrite !formatAttr_group.
    rewrite forallb_forall in Hg. rewrite Forall_forall in IH.
    apply strips_concat_map. intros a Ha.
    apply strips_app; [apply strips_separator |].
    apply IH; [now apply list_elem_of_In | now apply Hg | exact Hlc |].
    apply dotted_free; auto.
Qed.

Lemma strips_formatAttrs (attrs : list Attr) (lc : string) :
  forallb (Attr_free ESC) attrs = true -> lc = "" \/ In lc color_codes ->
  strips_to (formatAttrs o attrs lc) (formatAttrs (without_colors o) attrs lc).
Proof.
  intros Hf Hlc. rewrite !formatAttrs_text. rewrite forallb_forall in Hf.
  apply strips_concat_map. intros a Ha.
  apply strips_app; [apply strips_separator |].
  apply strips_formatAttr; auto.
Qed.

Lemma strips_formatLevel (l : Level) :
  strips_to (formatLevel o l) (formatLevel (without_colors o) l).
Proof.
  unfold formatLevel. cbn [without_colors apply_Option colors]. rewrite colorize_off.
  change (levelColor_of (apply_Option (WithColors false) o) l) with (levelColor_of o l).
  apply strips_colorize.
  - repeat destruct (_ =? _); reflexivity.
  - apply (attrColor_code o l Hdefault).
Qed.

Lemma strips_line (rt : Runtime) (g : string) (inh : list Attr) (r : slog_Record rt) :
  texts_free ESC rt o g inh r = true ->
  stripAnsi (line rt o g inh r) = line rt (without_colors o) g inh r.
Proof.
  intros Hf. apply texts_free_elim in Hf as (Hg & Ht & Hs & Hm & Ha).
  assert (Gray : FgGray = "" \/ In FgGray color_codes)
    by (right; unfold color_codes; simpl; tauto).
  apply strips_total. unfold line, line_tail, after_label.
  repeat apply strips_app.
  - rewrite !colorize_plain. now apply strips_text.
  - now apply strips_text.
  - apply strips_formatLevel.
  - now apply strips_text.
  - unfold timestamp_part. cbn [without_colors apply_Option colors includeTimestamp
                                 timestampFormat].
    destruct (includeTimestamp o && _); [| apply strips_nil].
    apply strips_app; [now apply strips_colorize | now apply strips_text].
  - unfold source_part. cbn [without_colors apply_Option colors includeSource].
    destruct (includeSource o && _); [| apply strips_nil].
    apply strips_app; [| now apply strips_text].
    apply strips_colorize; [| exact Gray]. apply source_text_free; auto.
  - rewrite !colorize_plain. now apply strips_text.
  - change (attrColor (without_colors o) (r_Level r)) with (attrColor o (r_Level r)).
    apply strips_formatAttrs; [exact Ha |]. apply (attrColor_code o _ Hdefault).
  - now apply strips_text.
Qed.
End Strip.

(** X14. The tests' [stripAnsi] undoes the colours: applied to the line a
    handler writes for a record whose texts hold no escape character, it
    gives the line the handler would write with colours disabled, in which
    no escape character is left. *)
Theorem X14_stripAnsi_line (rt : Runtime) (w : World) (p : nat)
    (h : PrettyslogHandler) (r : slog_Record rt) :
  World_ok w = true -> handlers w !! p = Some h -> Enabled h (r_Level r) = true ->
  texts_free ESC rt (h_opts h) (default "" (last (groups_of w h))) (attrs_of w h) r = true ->
  exists label ln,
    last (groups_of w h) = Some label
    /\ output rt w p r = Some [(h_writer h, ln)]
    /\ stripAnsi ln = line rt (without_colors (h_opts h)) label (attrs_of w h) r
    /\ count_char ESC (stripAnsi ln) = O.
Proof.
  intros Hw Hh He Hf.
  destruct (output_enabled rt w p h r Hw Hh He) as (g & Hl & Ho).
  rewrite Hl in Hf. cbn [default] in Hf.
  pose proof (World_ok_lookup w p h Hw Hh) as Hok.
  unfold handler_ok in Hok. apply andb_true_iff in Hok as [_ Hc].
  apply bool_decide_eq_true in Hc.
  pose proof (strips_line (h_opts h) Hc rt g (attrs_of w h) r Hf) as E.
  exists g, (line rt (h_opts h) g (attrs_of w h) r).
  repeat split; auto. rewrite E. apply line_plain; [reflexivity |]. exact Hf.
Qed.

Lemma X14_stripAnsi_line_witness :
  exists label ln,
    last (groups_of color_World color_handler) = Some label
    /\ output sample_rt color_World 0 test_Record = Some [(h_writer color_handler, ln)]
    /\ stripAnsi ln
       = line sample_rt (without_colors (h_opts color_handler)) label
           (attrs_of color_World color_handler) test_Record
    /\ count_char ESC (stripAnsi ln) = O.
Proof.
  apply (X14_stripAnsi_line sample_rt color_World 0 color_handler test_Record).
  - vm_compute. reflexivity.
  - reflexivity.
  - reflexivity.
  - vm_compute. reflexivity.
Defined.

(** ** The package set-default *)

(** X15. The handler that the package set-default installs as the default
    logger is labelled [app], writes to the standard error stream with
    colours and timestamps and without call sites, and lets through every
    record of level Debug or above. *)
Theorem X15_setdefault (rt : Runtime) (w : World) (r : slog_Record rt) :
  World_ok w = true ->
  exists h',
    handlers (setdefault_init w).1 !! (setdefault_init w).2 = Some h'
    /\ h_opts h'
       = {| includeTimestamp := true; includeSource := false; colors := true;
            levelColors := levelColors defaultOptions;
            timestampFormat := "[15:04:05.000]";
            level := LevelDebug; writer := os_Stderr |}
    /\ h_writer h' = os_Stderr
    /\ groups_of (setdefault_init w).1 h' = ["app"]
    /\ attrs_of (setdefault_init w).1 h' = []
    /\ (forall l, Enabled h' l = true <-> LevelDebug <= l)
    /\ (LevelDebug <= r_Level r ->
        output rt (setdefault_init w).1 (setdefault_init w).2 r
        = Some [(os_Stderr, "app" +:+ " " +:+ line_tail rt (h_opts h') [] r)]).
Proof.
  intros Hw. unfold setdefault_init.
  destruct (New_extends w "app" [WithSource false; WithLevel LevelDebug; WithColors true])
    as (h' & Hh' & Hx & Hg & Ha & _).
  pose proof (New_ok w "app" [WithSource false; WithLevel LevelDebug; WithColors true] Hw)
    as Hw'.
  assert (Hat : attrs_of (NewPrettyslogHandler w "app"
                            [WithSource false; WithLevel LevelDebug; WithColors true]).1 h' = [])
    by (unfold attrs_of; now rewrite Ha).
  assert (Hv : h' = {| h_mu := mutexes w; h_writer := os_Stderr;
                       h_groups := {| base := Some (length (strArrays w)); len := 1; cap := 1 |};
                       h_opts := {| includeTimestamp := true; includeSource := false;
                                    colors := true;
                                    levelColors := levelColors defaultOptions;
                                    timestampFormat := "[15:04:05.000]";
                                    level := LevelDebug; writer := os_Stderr |};
                       h_attrs := nil_slice |}).
  { unfold NewPrettyslogHandler in Hh'. cbn [fst handlers] in Hh'.
    rewrite (list_lookup_middle _ [] _ _ eq_refl) in Hh'. now injection Hh' as <-. }
  assert (En : forall l, Enabled h' l = true <-> LevelDebug <= l).
  { intros l. rewrite Hv. unfold Enabled. cbn [h_opts level]. apply Z.geb_le. }
  exists h'. split; [exact Hh' |]. split; [now rewrite Hv |]. split; [now rewrite Hv |].
  split; [exact Hg |]. split; [exact Hat |]. split; [exact En |].
  intros Hl. apply En in Hl.
  destruct (output_enabled rt _ _ h' r Hw' Hh' Hl) as (g & Hgl & Ho).
  rewrite Hg in Hgl. injection Hgl as <-.
  change (NewPrettyslogHandler w "app"
            [WithSource false; WithLevel LevelDebug; WithColors true]).2
    with (length (handlers w)).
  rewrite Ho, Hat. unfold line. rewrite colorize_plain. now rewrite Hv at 1.
Qed.

Lemma X15_setdefault_witness :
  output sample_rt (setdefault_init empty_World).1 (setdefault_init empty_World).2
    debug_Record
  = Some [(os_Stderr,
           "app" +:+ " "
           +:+ line_tail sample_rt
                 {| includeTimestamp := true; includeSource := false; colors := true;
                    levelColors := levelColors defaultOptions;
                    timestampFormat := "[15:04:05.000]";
                    level := LevelDebug; writer := os_Stderr |} [] debug_Record)].
Proof.
  destruct (X15_setdefault sample_rt empty_World debug_Record eq_refl)
    as (h' & _ & Ho & _ & _ & _ & _ & H).
  rewrite <- Ho. apply H. vm_compute. discriminate.
Defined.

(** ** Locks *)

(** X16. Each call of [NewPrettyslogHandler] makes a mutex of its own: in a
    store a program can reach, the new root handler shares its mutex with
    none of the handlers that exist, whereas a derived handler has the mutex
    of its parent. *)
Theorem X16_root_mutex_fresh (rt : Runtime) (w : World) (group : string)
    (opts : list Option) (p : nat) (h : PrettyslogHandler) :
  reachable rt w -> handlers w !! p = Some h ->
  exists h',
    handlers (NewPrettyslogHandler w group opts).1
      !! (NewPrettyslogHandler w group opts).2 = Some h'
    /\ h_mu h' <> h_mu h
    /\ (forall name w' p' hd,
          WithGroup rt w p name = Some (w', p') -> handlers w' !! p' = Some hd ->
          h_mu hd = h_mu h)
    /\ (forall attrs w' p' hd,
          WithAttrs rt w p attrs = Some (w', p') -> handlers w' !! p' = Some hd ->
          h_mu hd = h_mu h).
Proof.
  intros Hr Hh. destruct (New_extends w group opts) as (h' & Hh' & _ & _ & _ & Hmu & _).
  exists h'. split; [exact Hh' |]. split; [| split].
  - pose proof (reachable_mutex rt w p h Hr Hh). lia.
  - intros name w' p' hd E Hd.
    destruct (WithGroup_cases rt w p h name w' p' hd Hh E Hd)
      as [(_ & _ & _ & ->) | (_ & _ & _ & _ & _ & _ & M & _)]; auto.
  - intros attrs w' p' hd E Hd.
    destruct (WithAttrs_cases rt w p h attrs w' p' hd Hh E Hd)
      as [(_ & _ & _ & ->) | (_ & _ & _ & _ & _ & _ & M & _)]; auto.
Qed.

Lemma X16_root_mutex_fresh_witness :
  exists h',
    handlers (NewPrettyslogHandler plain_World "other" []).1
      !! (NewPrettyslogHandler plain_World "other" []).2 = Some h'
    /\ h_mu h' <> h_mu plain_handler.
Proof.
  destruct (X16_root_mutex_fresh sample_rt plain_World "other" [] 0 plain_handler)
    as (h' & H1 & H2 & _).
  - apply (reach_New sample_rt empty_World "app" [WithColors false]), reach_empty.
  - reflexivity.
  - exists h'. auto.
Defined.
